(** * The project board: validation, the project store and its listeners

    A shallow embedding of [src/app.ts] (and of the later, modular snapshot
    [components/project-input.ts], [components/project-list.ts]).

    - JavaScript strings are sequences of UTF-16 code units; [length]
      counts code units and [trim] strips the ECMAScript white space and
      line terminator code units at both ends.
    - JavaScript numbers are represented by the decimal the language itself
      prints for them (the digits [s] and the exponent of
      [Number::toString]), plus [NaN] and the two infinities.
    - [Project] objects and arrays live in a heap and are passed by
      reference, as in the source: [slice] allocates a new array that
      holds the same references. *)

From Stdlib Require Import ZArith NArith List Bool Lia String Ascii Decimal.
From Stdlib Require Import DecimalPos.
From stdpp Require Import base option list.
Import ListNotations.

Local Open Scope nat_scope.

(** ** JavaScript strings *)

(** A string is the list of its UTF-16 code units. *)
Definition jsstring := list N.

(** The code units of an ASCII literal. *)
Definition js (s : string) : jsstring :=
  map N_of_ascii (list_ascii_of_string s).

(** White space and line terminators, the code units [String.prototype.trim]
    removes: TAB, LF, VT, FF, CR, SP, NBSP, U+1680, U+2000..U+200A, U+2028,
    U+2029, U+202F, U+205F, U+3000 and U+FEFF. *)
Definition isWhiteSpace (c : N) : bool :=
  ((9 <=? c) && (c <=? 13) || (c =? 32) || (c =? 160) || (c =? 5760)
   || (8192 <=? c) && (c <=? 8202) || (c =? 8232) || (c =? 8233)
   || (c =? 8239) || (c =? 8287) || (c =? 12288) || (c =? 65279))%N.

Fixpoint trimStart (s : jsstring) : jsstring :=
  match s with
  | c :: s' => if isWhiteSpace c then trimStart s' else s
  | [] => []
  end.

Definition trimEnd (s : jsstring) : jsstring := rev (trimStart (rev s)).

(** [s.trim()] *)
Definition trim (s : jsstring) : jsstring := trimEnd (trimStart s).

(** ** JavaScript numbers *)

(** [Num neg m e] is the number [(-1)^neg * m * 10^e]. A double is
    represented by the shortest decimal that reads back as that double, which
    is the decimal [Number::toString] prints; the order of doubles is the
    order of these decimals. Both zeros print as [0] and compare equal. *)
Inductive number : Type :=
| NaN
| Inf (negative : bool)
| Num (negative : bool) (m : N) (e : Z).

Definition ofZ (z : Z) : number := Num (z <? 0)%Z (Z.abs_N z) 0.
Definition ofNat (n : nat) : number := Num false (N.of_nat n) 0.

Definition signed (negative : bool) (m : N) : Z :=
  if negative then (- Z.of_N m)%Z else Z.of_N m.

(** [a <= b]; any comparison with [NaN] is false. *)
Definition num_le (a b : number) : bool :=
  match a, b with
  | NaN, _ => false
  | _, NaN => false
  | Inf true, _ => true
  | _, Inf false => true
  | Inf false, _ => false
  | _, Inf true => false
  | Num na ma ea, Num nb mb eb =>
      let e := Z.min ea eb in
      (signed na ma * 10 ^ (ea - e) <=? signed nb mb * 10 ^ (eb - e))%Z
  end.

(** [a >= b] *)
Definition num_ge (a b : number) : bool := num_le b a.

(** *** Number::toString (radix 10) *)

Definition digitUnit (d : N) : N := (48 + d)%N.

Fixpoint uintUnits (d : Decimal.uint) : jsstring :=
  match d with
  | Nil => []
  | D0 d => digitUnit 0 :: uintUnits d
  | D1 d => digitUnit 1 :: uintUnits d
  | D2 d => digitUnit 2 :: uintUnits d
  | D3 d => digitUnit 3 :: uintUnits d
  | D4 d => digitUnit 4 :: uintUnits d
  | D5 d => digitUnit 5 :: uintUnits d
  | D6 d => digitUnit 6 :: uintUnits d
  | D7 d => digitUnit 7 :: uintUnits d
  | D8 d => digitUnit 8 :: uintUnits d
  | D9 d => digitUnit 9 :: uintUnits d
  end.

(** The decimal digits of a natural number, most significant first. *)
Definition digits (n : N) : jsstring := uintUnits (N.to_uint n).

Fixpoint dropZeros (s : jsstring) : jsstring :=
  match s with
  | c :: s' => if (c =? 48)%N then dropZeros s' else s
  | [] => []
  end.

Definition stripTrailingZeros (s : jsstring) : jsstring :=
  rev (dropZeros (rev s)).

Definition zeros (n : nat) : jsstring := repeat (digitUnit 0) n.

(** The digits [s] (with [k] their number) and the exponent [n] of
    ECMA-262 Number::toString: the value is [0.s * 10^n]. The cases follow
    the steps of that algorithm in their order. *)
Definition positiveToString (m : positive) (e : Z) : jsstring :=
  let all := digits (Npos m) in
  let s := stripTrailingZeros all in
  let k := Z.of_nat (length s) in
  let n := (Z.of_nat (length all) + e)%Z in
  let exponent :=
    js "e" ++ (if (0 <=? n - 1)%Z then js "+" else js "-")
           ++ digits (Z.abs_N (n - 1)) in
  if ((k <=? n) && (n <=? 21))%Z then
    s ++ zeros (Z.to_nat (n - k))
  else if ((0 <? n) && (n <=? 21))%Z then
    take (Z.to_nat n) s ++ js "." ++ drop (Z.to_nat n) s
  else if ((-6 <? n) && (n <=? 0))%Z then
    js "0." ++ zeros (Z.to_nat (- n)) ++ s
  else if (k =? 1)%Z then
    s ++ exponent
  else
    take 1 s ++ js "." ++ drop 1 s ++ exponent.

Definition Number_toString (x : number) : jsstring :=
  match x with
  | NaN => js "NaN"
  | Inf negative => (if negative then js "-" else []) ++ js "Infinity"
  | Num _ N0 _ => js "0"
  | Num negative (Npos m) e =>
      (if negative then js "-" else []) ++ positiveToString m e
  end.

(** ** Validation ([validate], app.ts lines 14-42) *)

(** [value: string | number] *)
Inductive scalar : Type :=
| VString (s : jsstring)
| VNumber (n : number).

(** An optional property is [None] when it is absent ([undefined]). *)
Record Validatable : Type := mkValidatable {
  value : scalar;
  required : option bool;
  minLength : option number;
  maxLength : option number;
  min : option number;
  max : option number
}.

(** [input.value.toString()] *)
Definition toString (v : scalar) : jsstring :=
  match v with
  | VString s => s
  | VNumber n => Number_toString n
  end.

(** The truthiness of an optional boolean. *)
Definition truthy (b : option bool) : bool :=
  match b with Some true => true | _ => false end.

Definition validate (input : Validatable) : bool :=
  let isValid := true in
  let isValid :=
    if truthy (required input)
    then isValid && negb (length (trim (toString (value input))) =? 0)
    else isValid in
  let isValid :=
    match minLength input, value input with
    | Some minLength, VString s => isValid && num_ge (ofNat (length s)) minLength
    | _, _ => isValid
    end in
  let isValid :=
    match maxLength input, value input with
    | Some maxLength, VString s => isValid && num_le (ofNat (length s)) maxLength
    | _, _ => isValid
    end in
  let isValid :=
    match min input, value input with
    | Some min, VNumber n => isValid && num_ge n min
    | _, _ => isValid
    end in
  let isValid :=
    match max input, value input with
    | Some max, VNumber n => isValid && num_le n max
    | _, _ => isValid
    end in
  isValid.

(** ** Projects and the heap *)

(** [enum ProjectStatus { Active, Finished }] *)
Inductive ProjectStatus : Type := Active | Finished.

Definition status_eqb (a b : ProjectStatus) : bool :=
  match a, b with
  | Active, Active | Finished, Finished => true
  | _, _ => false
  end.

(** [class Project] *)
Record Project : Type := mkProject {
  id : jsstring;
  title : jsstring;
  description : jsstring;
  people : number;
  status : ProjectStatus
}.

Definition setStatus (s : ProjectStatus) (p : Project) : Project :=
  mkProject (id p) (title p) (description p) (people p) s.

(** A reference to an object or to an array: its index in the heap. *)
Abbreviation ref := nat (only parsing).

(** The [type] of a [ProjectList]: ['active' | 'finished']. *)
Inductive ListType : Type := active | finished.

(** A [ProjectList] instance: its [type], its [assignedProjects] and the
    rows of its [<ul>], one title per row. *)
Record ProjectList : Type := mkProjectList {
  type : ListType;
  assignedProjects : list ref;
  rendered : list jsstring
}.

(** What a callback other than the one of [ProjectList] does with the array
    [items] it is handed: edit the array itself ([items.push(x)],
    [items.pop()], [items.length = 0], [items.reverse()], ...), or write to
    the elements ([items.forEach((p, i) => { p.status = ...; })]). *)
Inductive Action : Type :=
| OnArray (f : list ref -> list ref)
| OnItems (f : nat -> Project -> Project).

(** [type Listener = (items: Project[]) => void]. The source registers one
    kind of listener, the arrow function of [ProjectList.configure], closed
    over its [this]; [Callback] stands for any other function that only
    works on its argument. *)
Inductive Listener : Type :=
| ListListener (this : nat)
| Callback (body : list Action).

(** The state of the page: the heap, the fields of the one [ProjectState],
    the [ProjectList] instances, the three inputs of the [ProjectInput]
    form, the alerts shown so far, the results of
    [Math.random().toString()] ([random k] is the k-th one, [drawn] counts
    the calls made) and the record of the listener calls made so far:
    the listener, the array it was handed and the content of that array
    at the call. *)
Record World : Type := mkWorld {
  objects : list Project;
  arrays : list (list ref);
  listeners : list Listener;
  projects : ref;
  lists : list ProjectList;
  titleInput : jsstring;
  descriptionInput : jsstring;
  peopleInput : jsstring;
  alerts : list jsstring;
  random : nat -> jsstring;
  drawn : nat;
  calls : list (Listener * ref * list ref)
}.

Definition withObjects (o : list Project) (w : World) : World :=
  mkWorld o (arrays w) (listeners w) (projects w) (lists w) (titleInput w)
    (descriptionInput w) (peopleInput w) (alerts w) (random w) (drawn w)
    (calls w).

Definition withArrays (a : list (list ref)) (w : World) : World :=
  mkWorld (objects w) a (listeners w) (projects w) (lists w) (titleInput w)
    (descriptionInput w) (peopleInput w) (alerts w) (random w) (drawn w)
    (calls w).

Definition withListeners (l : list Listener) (w : World) : World :=
  mkWorld (objects w) (arrays w) l (projects w) (lists w) (titleInput w)
    (descriptionInput w) (peopleInput w) (alerts w) (random w) (drawn w)
    (calls w).

Definition withLists (l : list ProjectList) (w : World) : World :=
  mkWorld (objects w) (arrays w) (listeners w) (projects w) l (titleInput w)
    (descriptionInput w) (peopleInput w) (alerts w) (random w) (drawn w)
    (calls w).

Definition withInputs (t d p : jsstring) (w : World) : World :=
  mkWorld (objects w) (arrays w) (listeners w) (projects w) (lists w) t d p
    (alerts w) (random w) (drawn w) (calls w).

Definition withAlerts (a : list jsstring) (w : World) : World :=
  mkWorld (objects w) (arrays w) (listeners w) (projects w) (lists w)
    (titleInput w) (descriptionInput w) (peopleInput w) a (random w)
    (drawn w) (calls w).

Definition withDrawn (n : nat) (w : World) : World :=
  mkWorld (objects w) (arrays w) (listeners w) (projects w) (lists w)
    (titleInput w) (descriptionInput w) (peopleInput w) (alerts w) (random w)
    n (calls w).

Definition withCalls (c : list (Listener * ref * list ref)) (w : World) : World :=
  mkWorld (objects w) (arrays w) (listeners w) (projects w) (lists w)
    (titleInput w) (descriptionInput w) (peopleInput w) (alerts w) (random w)
    (drawn w) c.

(** The content of the array at [a]. *)
Definition array (a : ref) (w : World) : list ref :=
  default [] (arrays w !! a).

(** [a.slice()]: a new array with the elements of [a]. *)
Definition slice (a : ref) (w : World) : ref * World :=
  (length (arrays w), withArrays (arrays w ++ [array a w]) w).

(** [a.push(r)] *)
Definition push (a : ref) (r : ref) (w : World) : World :=
  withArrays (alter (fun l => l ++ [r]) a (arrays w)) w.

(** [Math.random().toString()] *)
Definition randomString (w : World) : jsstring * World :=
  (random w (drawn w), withDrawn (S (drawn w)) w).

(** [new Project(id, title, description, people, status)] *)
Definition newObject (p : Project) (w : World) : ref * World :=
  (length (objects w), withObjects (objects w ++ [p]) w).

(** ** The listeners *)

(** The test of the [filter] in [ProjectList.configure]. *)
Definition relevant (t : ListType) (proj : Project) : bool :=
  match t with
  | active => status_eqb (status proj) Active
  | finished => status_eqb (status proj) Finished
  end.

(** [projects.filter(proj => ...)], each element read through the heap
    [objs]. *)
Definition filterProjects (t : ListType) (objs : list Project)
    (items : list ref) : list ref :=
  List.filter
    (fun r => match objs !! r with
              | Some proj => relevant t proj
              | None => false
              end) items.

(** [renderProjects]: the list is emptied and gets one row per assigned
    project, showing its title. *)
Definition renderProjects (objs : list Project) (assigned : list ref)
    : list jsstring :=
  omap (fun r => title <$> objs !! r) assigned.

(** The arrow function registered by [ProjectList.configure] for the
    instance [this], called with the array [items]. *)
Definition listListener (this : nat) (items : ref) (w : World) : World :=
  match lists w !! this with
  | Some u =>
      let relevantProjects :=
        filterProjects (type u) (objects w) (array items w) in
      let u := mkProjectList (type u) relevantProjects
                 (renderProjects (objects w) relevantProjects) in
      withLists (<[this := u]> (lists w)) w
  | None => w
  end.

(** [items.forEach((p, i) => ...)] from index [i] on. *)
Fixpoint forEachFrom (i : nat) (f : nat -> Project -> Project)
    (items : list ref) (objs : list Project) : list Project :=
  match items with
  | [] => objs
  | r :: items' => forEachFrom (S i) f items' (alter (f i) r objs)
  end.

Definition perform (items : ref) (w : World) (a : Action) : World :=
  match a with
  | OnArray f => withArrays (alter f items (arrays w)) w
  | OnItems f => withObjects (forEachFrom 0 f (array items w) (objects w)) w
  end.

(** [listenerFn(items)] *)
Definition callListener (listenerFn : Listener) (items : ref) (w : World) : World :=
  match listenerFn with
  | ListListener this => listListener this items w
  | Callback body => fold_left (perform items) body w
  end.

(** ** The store ([ProjectState]) *)

(** [addListener(listenerFn)] *)
Definition addListener (listenerFn : Listener) (w : World) : World :=
  withListeners (listeners w ++ [listenerFn]) w.

(** One turn of the loop: [listenerFn(this.projects.slice())]. *)
Definition notifyOne (listenerFn : Listener) (w : World) : World :=
  let (items, w) := slice (projects w) w in
  let w := withCalls (calls w ++ [(listenerFn, items, array items w)]) w in
  callListener listenerFn items w.

(** [for (const listenerFn of ls) { listenerFn(this.projects.slice()); }] *)
Fixpoint notifyAll (ls : list Listener) (w : World) : World :=
  match ls with
  | [] => w
  | listenerFn :: ls' => notifyAll ls' (notifyOne listenerFn w)
  end.

Definition notify (w : World) : World := notifyAll (listeners w) w.

(** [addProject(title, description, numOfPeople)] *)
Definition addProject (title description : jsstring) (numOfPeople : number)
    (w : World) : World :=
  let (rnd, w) := randomString w in
  let (newProject, w) :=
    newObject (mkProject rnd title description numOfPeople Active) w in
  let w := push (projects w) newProject w in
  notify w.

(** Whether the object at [r] has the id [projectId]. *)
Definition hasId (projectId : jsstring) (objs : list Project) (r : ref) : bool :=
  match objs !! r with
  | Some prj => bool_decide (id prj = projectId)
  | None => false
  end.

(** Modelled from the spec: [ProjectState.moveProject] (state/project.ts of
    the modular snapshot) is called by [ProjectList.dropHandler] but is not
    among the sources. The store looks up the project with the given id;
    when there is none the call does nothing; otherwise it sets the status
    of that project in place, whatever it was, and notifies the listeners
    as [addProject] does. *)
Definition moveProject (projectId : jsstring) (newStatus : ProjectStatus)
    (w : World) : World :=
  match List.find (hasId projectId (objects w)) (array (projects w) w) with
  | Some project =>
      notify (withObjects (alter (setStatus newStatus) project (objects w)) w)
  | None => w
  end.

(** ** The components *)

(** [new ProjectList(type)]: the instance starts with no assigned projects
    and registers its listener. *)
Definition newProjectList (t : ListType) (w : World) : World :=
  let this := length (lists w) in
  let w := withLists (lists w ++ [mkProjectList t [] []]) w in
  addListener (ListListener this) w.

(** [ProjectList.dropHandler]: [projId] is the text of the drag payload. *)
Definition dropHandler (this : nat) (projId : jsstring) (w : World) : World :=
  match lists w !! this with
  | Some u =>
      moveProject projId
        (match type u with active => Active | finished => Finished end) w
  | None => w
  end.

(** [alert(message)] *)
Definition alert (message : jsstring) (w : World) : World :=
  withAlerts (alerts w ++ [message]) w.

(** The three constraint objects of [gatherUserInput]. *)
Definition validateTitle (enteredTitle : jsstring) : Validatable :=
  mkValidatable (VString enteredTitle) (Some true)
    (Some (ofNat 1)) (Some (ofNat 15)) None None.

Definition validateDescription (enteredDescription : jsstring) : Validatable :=
  mkValidatable (VString enteredDescription) (Some true)
    (Some (ofNat 5)) (Some (ofNat 50)) None None.

Definition validatePeople (people : number) : Validatable :=
  mkValidatable (VNumber people) (Some true)
    None None (Some (ofNat 1)) (Some (ofNat 10)).

(** [clearInputs] *)
Definition clearInputs (w : World) : World := withInputs [] [] [] w.

Section ProjectInput.

(** Unary plus on a string, [+enteredPeople]. *)
Variable ToNumber : jsstring -> number.

(** [gatherUserInput]: the tuple, or nothing after an alert. *)
Definition gatherUserInput (w : World)
  : option (jsstring * jsstring * number) * World :=
  let enteredTitle := titleInput w in
  let enteredDescription := descriptionInput w in
  let enteredPeople := peopleInput w in
  if validate (validateTitle enteredTitle)
     && validate (validateDescription enteredDescription)
     && validate (validatePeople (ToNumber enteredPeople))
  then (Some (enteredTitle, enteredDescription, ToNumber enteredPeople), w)
  else (None, alert (js "Invalid input, please try again!") w).

(** [submitHandler] *)
Definition submitHandler (w : World) : World :=
  let (userInput, w) := gatherUserInput w in
  let w :=
    match userInput with
    | Some (title, desc, people) => addProject title desc people w
    | None => w
    end in
  clearInputs w.

End ProjectInput.

(** ** Runs of the program *)

(** The page once [ProjectState.getInstance()] has made the store: no
    project, no listener, an empty [projects] array. *)
Definition boot (rand : nat -> jsstring) : World :=
  mkWorld [] [[]] [] 0 [] [] [] [] [] rand 0 [].

(** The calls made on the store and the components made. *)
Inductive Call : Type :=
| NewProjectList (t : ListType)
| AddListener (body : list Action)
| AddProject (title description : jsstring) (numOfPeople : number)
| MoveProject (projectId : jsstring) (newStatus : ProjectStatus).

Definition step (w : World) (c : Call) : World :=
  match c with
  | NewProjectList t => newProjectList t w
  | AddListener body => addListener (Callback body) w
  | AddProject t d n => addProject t d n w
  | MoveProject i s => moveProject i s w
  end.

Definition run (cs : list Call) (w : World) : World := fold_left step cs w.

(** The page after the last lines of app.ts: the input form, then the
    active list, then the finished list. *)
Definition program (rand : nat -> jsstring) : World :=
  run [NewProjectList active; NewProjectList finished] (boot rand).

(** The two calls that change the projects. *)
Inductive Op : Type :=
| Add (title description : jsstring) (numOfPeople : number)
| Move (projectId : jsstring) (newStatus : ProjectStatus).

Definition call (o : Op) : Call :=
  match o with
  | Add t d n => AddProject t d n
  | Move i s => MoveProject i s
  end.

(** The projects of the store, in order. *)
Definition storeRefs (w : World) : list ref := array (projects w) w.
Definition storeProjects (w : World) : list Project :=
  omap (fun r => objects w !! r) (storeRefs w).

Definition isAdd (o : Op) : bool :=
  match o with Add _ _ _ => true | Move _ _ => false end.

(** ** Auxiliary notions for the properties *)

(** A string no character of which survives [trim]. *)
Definition blank (s : jsstring) : bool := forallb isWhiteSpace s.

Fixpoint digitsValue (s : jsstring) (acc : N) : option N :=
  match s with
  | [] => Some acc
  | c :: s' =>
      if ((48 <=? c) && (c <=? 57))%N
      then digitsValue s' (10 * acc + (c - 48))%N
      else None
  end.

(** Unary plus on the strings the examples type in the people field: a
    blank string is 0 and a string of up to fifteen decimal digits (white
    space around it ignored) is that integer. The other numeric literals (a sign, a
    fraction, an exponent, a radix prefix, [Infinity]) are not recognised
    here and are read as [NaN] as any other text is; the examples use none,
    and the theorems hold for every reading of the field. *)
Definition digitsToNumber (s : jsstring) : number :=
  match trim s with
  | [] => ofNat 0
  | s' => match digitsValue s' 0 with
          | Some n => Num false n 0
          | None => NaN
          end
  end.

(** The fields no listener call writes. *)
Definition fixed (w : World) :=
  (listeners w, projects w, random w, drawn w,
   titleInput w, descriptionInput w, peopleInput w, alerts w).

Definition isOnArray (a : Action) : bool :=
  match a with OnArray _ => true | OnItems _ => false end.

(** A listener that writes to no element of the array it is handed: the
    listener of a [ProjectList], or a callback that only edits the array. *)
Definition tame (l : Listener) : bool :=
  match l with
  | ListListener _ => true
  | Callback body => forallb isOnArray body
  end.

(** The heap is well formed where the store looks: [projects] is an array
    and its elements are objects. *)
Definition wf (w : World) : Prop :=
  projects w < length (arrays w)
  /\ Forall (fun r => r < length (objects w)) (storeRefs w).

(** What a listener called with [items] leaves alone whatever it does: the
    fixed fields, the record of calls, every array but [items], and the
    number of arrays, objects and lists. *)
Definition calledWith (items : ref) (w w' : World) : Prop :=
  fixed w' = fixed w
  /\ calls w' = calls w
  /\ length (arrays w') = length (arrays w)
  /\ (forall a, a <> items -> arrays w' !! a = arrays w !! a)
  /\ length (objects w') = length (objects w)
  /\ length (lists w') = length (lists w).

(** What one turn of the notification loop for [listenerFn] does in any
    case: the call is recorded with a new array that holds the projects of
    the store, and the arrays that existed are left alone. *)
Definition served (listenerFn : Listener) (w w' : World) : Prop :=
  fixed w' = fixed w
  /\ calls w' = calls w ++ [(listenerFn, length (arrays w), storeRefs w)]
  /\ length (arrays w') = S (length (arrays w))
  /\ (forall a, a < length (arrays w) -> arrays w' !! a = arrays w !! a)
  /\ length (objects w') = length (objects w)
  /\ length (lists w') = length (lists w).

(** The calls a notification adds to the record: one per listener, in
    the order of registration, each with an array of its own that holds
    the projects [refs]. *)
Definition notifications (ls : list Listener) (first : ref) (refs : list ref)
    : list (Listener * ref * list ref) :=
  imap (fun i l => (l, first + i, refs)) ls.

(** What a whole notification of the listeners [ls] does in any case. *)
Definition notified (ls : list Listener) (w w' : World) : Prop :=
  fixed w' = fixed w
  /\ calls w' = calls w ++ notifications ls (length (arrays w)) (storeRefs w)
  /\ length (arrays w') = length (arrays w) + length ls
  /\ (forall a, a < length (arrays w) -> arrays w' !! a = arrays w !! a)
  /\ length (objects w') = length (objects w)
  /\ length (lists w') = length (lists w).

(** What the listener of a list of type [t] makes of the store: the
    projects of that status, and one row for each. *)
Definition column (t : ListType) (w : World) : ProjectList :=
  let assigned := filterProjects t (objects w) (storeRefs w) in
  mkProjectList t assigned (renderProjects (objects w) assigned).

(** The invariant of the program under [addProject] and [moveProject]:
    the two lists listen, in that order; the store holds every object
    made, in the order of creation; the k-th project carries the k-th
    random string; and each list shows its column of the store. *)
Definition Inv (rand : nat -> jsstring) (w : World) : Prop :=
  listeners w = [ListListener 0; ListListener 1]
  /\ projects w < length (arrays w)
  /\ storeRefs w = seq 0 (length (objects w))
  /\ random w = rand
  /\ drawn w = length (objects w)
  /\ map id (objects w) = map rand (seq 0 (length (objects w)))
  /\ lists w = [column active w; column finished w].

(** The random strings drawn for the first [n] projects differ. *)
Definition distinctDraws (rand : nat -> jsstring) (n : nat) : Prop :=
  forall i j, i < n -> j < n -> rand i = rand j -> i = j.

(** A callback with the body [body], served the snapshot of the store in
    [w], leaves the sequence of the store and its projects as they were. *)
Definition isolated (body : list Action) (w : World) : Prop :=
  let w' := notifyOne (Callback body) w in
  storeRefs w' = storeRefs w /\ storeProjects w' = storeProjects w.

(** ** Example runs *)

(** [Math.random()] returning 0.5 at every call. *)
Definition sameDraw : nat -> jsstring := fun _ => js "0.5".

(** [Math.random()] returning 0.1, 0.3, 0.5, ... *)
Definition oddDraws (k : nat) : jsstring :=
  js "0." ++ digits (N.of_nat (2 * k + 1)).

Definition apiProject : Op :=
  Add (js "Build API") (js "Design the REST API") (ofNat 3).

Definition docsProject : Op :=
  Add (js "Write docs") (js "Explain the API") (ofNat 2).

(** The form filled in with a title, a description and a head count. *)
Definition filled (t d p : string) (w : World) : World :=
  withInputs (js t) (js d) (js p) w.

(** A callback that marks every project it is shown as finished:
    [items.forEach(p => { p.status = ProjectStatus.Finished; })]. *)
Definition finishAll : list Action :=
  [OnItems (fun _ => setStatus Finished)].

(** ** app.ts on its own *)

(** The calls app.ts can make: its store has no [moveProject]. *)
Inductive AppCall : Type :=
| AppNewProjectList (t : ListType)
| AppAddListener (body : list Action)
| AppAddProject (title description : jsstring) (numOfPeople : number).

Definition appCall (c : AppCall) : Call :=
  match c with
  | AppNewProjectList t => NewProjectList t
  | AppAddListener body => AddListener body
  | AppAddProject t d n => AddProject t d n
  end.

Definition isAppAdd (c : AppCall) : bool :=
  match c with AppAddProject _ _ _ => true | _ => false end.

(** One [addProject] call for each triple of the list, in order. *)
Definition addAll (ps : list (jsstring * jsstring * number)) : list Call :=
  map (fun p => AddProject (fst (fst p)) (snd (fst p)) (snd p)) ps.

(** The arrays handed to the listeners so far, in the order of the calls. *)
Definition snapshots (w : World) : list ref :=
  map (fun c => snd (fst c)) (calls w).

(** * Properties *)

(** ** Strings and numbers *)

Lemma trimStart_nil (s : jsstring) : trimStart s = [] <-> blank s = true.
Proof.
  unfold blank. induction s as [|c s IH]; simpl; [tauto|].
  destruct (isWhiteSpace c); simpl; [exact IH|]. split; discriminate.
Qed.

Lemma blank_trimStart (s : jsstring) : blank (trimStart s) = blank s.
Proof.
  unfold blank. induction s as [|c s IH]; simpl; [reflexivity|].
  destruct (isWhiteSpace c) eqn:E; simpl; [exact IH|]. now rewrite E.
Qed.

Lemma blank_app (s t : jsstring) : blank (s ++ t) = blank s && blank t.
Proof. apply forallb_app. Qed.

Lemma blank_rev (s : jsstring) : blank (rev s) = blank s.
Proof.
  induction s as [|c s IH]; simpl; [reflexivity|].
  rewrite blank_app, IH. simpl. unfold blank at 2. simpl.
  rewrite andb_true_r. apply andb_comm.
Qed.

(** [trim] leaves nothing exactly of the blank strings. *)
Lemma trim_length_0 (s : jsstring) : (length (trim s) =? 0) = blank s.
Proof.
  destruct (blank s) eqn:E.
  - apply trimStart_nil in E. unfold trim. rewrite E. reflexivity.
  - apply Nat.eqb_neq. intros H. apply length_zero_iff_nil in H.
    unfold trim, trimEnd in H.
    apply (f_equal (@rev N)) in H. rewrite rev_involutive in H. simpl in H.
    apply trimStart_nil in H. rewrite blank_rev, blank_trimStart in H.
    congruence.
Qed.

Lemma uintUnits_not_blank (d : Decimal.uint) :
  Forall (fun c => isWhiteSpace c = false) (uintUnits d).
Proof. induction d; simpl; constructor; auto. Qed.

Lemma uintUnits_zeros (d : Decimal.uint) :
  Forall (fun c => c = 48%N) (uintUnits d) -> Pos.of_uint d = N0.
Proof.
  induction d; simpl; intros H; try reflexivity;
    inversion H as [|? ? Hc Ht]; subst; try discriminate Hc.
  now apply IHd.
Qed.

Lemma dropZeros_nil (s : jsstring) :
  dropZeros s = [] -> Forall (fun c => c = 48%N) s.
Proof.
  induction s as [|c s IH]; simpl; intros H; [constructor|].
  destruct (N.eqb_spec c 48); [|discriminate]. constructor; auto.
Qed.

Lemma dropZeros_Forall (P : N -> Prop) (s : jsstring) :
  Forall P s -> Forall P (dropZeros s).
Proof.
  induction 1 as [|c s Hc Hs IH]; simpl; [constructor|].
  destruct (c =? 48)%N; [exact IH|]. constructor; assumption.
Qed.

Lemma not_blank_Forall (s : jsstring) :
  s <> [] -> Forall (fun c => isWhiteSpace c = false) s -> blank s = false.
Proof.
  intros Hs H. destruct H as [|c s Hc _]; [congruence|].
  unfold blank. simpl. now rewrite Hc.
Qed.

(** The digits [s] printed for a positive mantissa: there is one at least,
    and none is white space. *)
Lemma significant_digits (m : positive) :
  blank (stripTrailingZeros (digits (Npos m))) = false.
Proof.
  unfold stripTrailingZeros, digits. simpl N.to_uint.
  apply not_blank_Forall.
  - intros H. apply (f_equal (@rev N)) in H. rewrite rev_involutive in H.
    simpl in H. apply dropZeros_nil in H.
    apply Forall_rev in H. rewrite rev_involutive in H.
    apply uintUnits_zeros in H. rewrite Unsigned.of_to in H. discriminate.
  - apply Forall_rev, dropZeros_Forall, Forall_rev, uintUnits_not_blank.
Qed.

Lemma positiveToString_not_blank (m : positive) (e : Z) :
  blank (positiveToString m e) = false.
Proof.
  unfold positiveToString.
  set (s := stripTrailingZeros (digits (N.pos m))).
  assert (Hs : blank s = false) by apply significant_digits.
  repeat match goal with |- context [if ?b then _ else _] => destruct b end;
    rewrite ?blank_app, ?Hs; try reflexivity;
    try (cbn; rewrite ?andb_false_r; reflexivity).
Qed.

(** What [toString] makes of a number is never blank. *)
Lemma Number_toString_not_blank (x : number) :
  blank (Number_toString x) = false.
Proof.
  destruct x as [|[|]|neg [|m] e]; try reflexivity.
  simpl. rewrite blank_app, positiveToString_not_blank.
  apply andb_false_r.
Qed.

Example toString_examples :
  map Number_toString
    [ofZ 0; ofZ 7; ofZ (-42); Num false 15 (-1); Num false 1 21;
     Num false 1 (-7); Num false 123 (-9); Num false 5 (-1); Num false 1200 0]
  = map js ["0"; "7"; "-42"; "1.5"; "1e+21"; "1e-7"; "1.23e-7"; "0.5"; "1200"]%string.
Proof. vm_compute. reflexivity. Qed.


(** ** Validation *)

Lemma num_le_ofNat (a b : nat) : num_le (ofNat a) (ofNat b) = (a <=? b).
Proof.
  unfold num_le, ofNat, signed. rewrite Z.min_id, Z.sub_diag.
  change (10 ^ 0)%Z with 1%Z. rewrite !Z.mul_1_r.
  destruct (Nat.leb_spec a b); [apply Z.leb_le | apply Z.leb_gt]; lia.
Qed.

(** On a number the [required] test always passes. *)
Lemma validate_required_number (n : number) (a b c d : option number) :
  validate (mkValidatable (VNumber n) (Some true) a b c d)
  = validate (mkValidatable (VNumber n) None a b c d).
Proof.
  unfold validate.
  cbn [value required minLength maxLength min max truthy toString andb].
  now rewrite trim_length_0, Number_toString_not_blank.
Qed.

Lemma validate_title (t : jsstring) :
  validate (validateTitle t)
  = negb (blank t) && (1 <=? length t) && (length t <=? 15).
Proof.
  unfold validate, validateTitle, num_ge.
  cbn [value required minLength maxLength min max truthy toString andb].
  now rewrite trim_length_0, !num_le_ofNat.
Qed.

Lemma validate_description (t : jsstring) :
  validate (validateDescription t)
  = negb (blank t) && (5 <=? length t) && (length t <=? 50).
Proof.
  unfold validate, validateDescription, num_ge.
  cbn [value required minLength maxLength min max truthy toString andb].
  now rewrite trim_length_0, !num_le_ofNat.
Qed.

Lemma validate_people (n : number) :
  validate (validatePeople n) = num_ge n (ofNat 1) && num_le n (ofNat 10).
Proof.
  unfold validatePeople. rewrite validate_required_number. reflexivity.
Qed.

(** ** Listener calls *)

Lemma fixed_projects (w w' : World) : fixed w' = fixed w -> projects w' = projects w.
Proof. unfold fixed. congruence. Qed.

Lemma fixed_listeners (w w' : World) : fixed w' = fixed w -> listeners w' = listeners w.
Proof. unfold fixed. congruence. Qed.

Lemma fixed_random (w w' : World) :
  fixed w' = fixed w -> random w' = random w /\ drawn w' = drawn w.
Proof. unfold fixed. split; congruence. Qed.

Lemma fixed_inputs (w w' : World) :
  fixed w' = fixed w ->
  titleInput w' = titleInput w /\ descriptionInput w' = descriptionInput w
  /\ peopleInput w' = peopleInput w /\ alerts w' = alerts w.
Proof. unfold fixed. repeat split; congruence. Qed.

Lemma calledWith_refl (items : ref) (w : World) : calledWith items w w.
Proof. repeat split. Qed.

Lemma calledWith_trans (items : ref) (w1 w2 w3 : World) :
  calledWith items w1 w2 -> calledWith items w2 w3 -> calledWith items w1 w3.
Proof.
  intros (F1 & C1 & A1 & O1 & P1 & L1) (F2 & C2 & A2 & O2 & P2 & L2).
  repeat split; try congruence.
  intros a Ha. rewrite O2, O1; auto.
Qed.

Lemma forEachFrom_length (f : nat -> Project -> Project) (items : list ref) :
  forall i objs, length (forEachFrom i f items objs) = length objs.
Proof.
  induction items as [|r items IH]; intros i objs; simpl; [reflexivity|].
  rewrite IH. apply length_alter.
Qed.

Lemma perform_calledWith (items : ref) (w : World) (a : Action) :
  calledWith items w (perform items w a).
Proof.
  destruct a as [f|f]; repeat split; simpl.
  - apply length_alter.
  - intros a Ha. apply list_lookup_alter_ne. congruence.
  - apply forEachFrom_length.
Qed.

Lemma perform_objects (items : ref) (w : World) (a : Action) :
  isOnArray a = true -> objects (perform items w a) = objects w.
Proof. destruct a; [reflexivity | discriminate]. Qed.


Lemma callback_calledWith (items : ref) (body : list Action) :
  forall w, calledWith items w (fold_left (perform items) body w).
Proof.
  induction body as [|a body IH]; intros w; simpl.
  - apply calledWith_refl.
  - eapply calledWith_trans; [apply perform_calledWith | apply IH].
Qed.

Lemma callback_objects (items : ref) (body : list Action) :
  forallb isOnArray body = true ->
  forall w, objects (fold_left (perform items) body w) = objects w.
Proof.
  induction body as [|a body IH]; simpl; intros H w; [reflexivity|].
  apply andb_true_iff in H as [Ha Hb].
  rewrite IH by assumption. now apply perform_objects.
Qed.


Lemma listListener_calledWith (this : nat) (items : ref) (w : World) :
  calledWith items w (listListener this items w).
Proof.
  unfold listListener. destruct (_ !! _) as [u|].
  - repeat split. simpl. apply length_insert.
  - apply calledWith_refl.
Qed.

Lemma listListener_objects (this : nat) (items : ref) (w : World) :
  objects (listListener this items w) = objects w.
Proof. unfold listListener. now destruct (_ !! _). Qed.

Lemma callListener_calledWith (l : Listener) (items : ref) (w : World) :
  calledWith items w (callListener l items w).
Proof.
  destruct l as [this|body]; simpl.
  - apply listListener_calledWith.
  - apply callback_calledWith.
Qed.

(** A tame listener writes to no object. *)
Lemma callListener_objects (l : Listener) (items : ref) (w : World) :
  tame l = true -> objects (callListener l items w) = objects w.
Proof.
  destruct l as [this|body]; simpl; intros H.
  - apply listListener_objects.
  - now apply callback_objects.
Qed.

(** ** Notification *)

Lemma array_after_slice (a : ref) (w : World) :
  let (items, w') := slice a w in
  items = length (arrays w) /\ array items w' = array a w.
Proof.
  unfold slice, array. simpl. split; [reflexivity|].
  now rewrite list_lookup_middle.
Qed.

Lemma notifyOne_unfold (l : Listener) (w : World) :
  notifyOne l w
  = callListener l (length (arrays w))
      (withCalls (calls w ++ [(l, length (arrays w), storeRefs w)])
         (withArrays (arrays w ++ [storeRefs w]) w)).
Proof.
  unfold notifyOne, slice, storeRefs. cbv beta iota.
  unfold array at 2. cbn [arrays withArrays].
  now rewrite list_lookup_middle.
Qed.

Lemma notifyOne_served (l : Listener) (w : World) : served l w (notifyOne l w).
Proof.
  rewrite notifyOne_unfold.
  set (items := length (arrays w)).
  set (w2 := withCalls _ _).
  destruct (callListener_calledWith l items w2) as (F & C & A & O & P & L).
  unfold served. rewrite F, C, A, P, L. repeat split.
  - unfold w2. simpl. rewrite length_app. simpl. lia.
  - intros a Ha. rewrite O by (unfold items; lia).
    unfold w2. simpl. now apply lookup_app_l.
Qed.

Lemma served_storeRefs (l : Listener) (w w' : World) :
  served l w w' -> projects w < length (arrays w) -> storeRefs w' = storeRefs w.
Proof.
  intros (F & _ & _ & O & _) H. unfold storeRefs, array.
  rewrite (fixed_projects _ _ F). now rewrite O.
Qed.

Lemma notifyOne_objects (l : Listener) (w : World) :
  tame l = true -> objects (notifyOne l w) = objects w.
Proof.
  intros H. rewrite notifyOne_unfold. now rewrite callListener_objects.
Qed.

Lemma notifications_cons (l : Listener) (ls : list Listener) (first : ref)
    (refs : list ref) :
  notifications (l :: ls) first refs
  = (l, first, refs) :: notifications ls (S first) refs.
Proof.
  unfold notifications. simpl. rewrite Nat.add_0_r. f_equal.
  apply imap_ext. intros i x _. simpl. do 2 f_equal. lia.
Qed.

Lemma notifications_listeners (ls : list Listener) (first : ref) (refs : list ref) :
  map (fun c => fst (fst c)) (notifications ls first refs) = ls.
Proof.
  revert first. induction ls as [|l ls IH]; intros first; [reflexivity|].
  rewrite notifications_cons. simpl. now rewrite IH.
Qed.

Lemma notifyAll_notified (ls : list Listener) :
  forall w, projects w < length (arrays w) -> notified ls w (notifyAll ls w).
Proof.
  induction ls as [|l ls IH]; intros w Hw; simpl.
  - unfold notified, notifications. simpl. rewrite app_nil_r, Nat.add_0_r.
    repeat split.
  - pose proof (notifyOne_served l w) as S1.
    pose proof (served_storeRefs _ _ _ S1 Hw) as R1.
    destruct S1 as (F1 & C1 & A1 & O1 & P1 & L1).
    assert (Hw1 : projects (notifyOne l w) < length (arrays (notifyOne l w))).
    { rewrite (fixed_projects _ _ F1), A1. lia. }
    destruct (IH _ Hw1) as (F2 & C2 & A2 & O2 & P2 & L2).
    unfold notified. rewrite F2, F1, C2, C1, A2, A1, P2, P1, L2, L1, R1.
    rewrite notifications_cons, <- app_assoc. simpl.
    repeat split; [lia|].
    intros a Ha. rewrite O2 by lia. now apply O1.
Qed.

Lemma notifyAll_objects (ls : list Listener) :
  forallb tame ls = true ->
  forall w, objects (notifyAll ls w) = objects w.
Proof.
  induction ls as [|l ls IH]; simpl; intros H w; [reflexivity|].
  apply andb_true_iff in H as [Hl Hls].
  rewrite IH by assumption. now apply notifyOne_objects.
Qed.

Lemma notified_storeRefs (ls : list Listener) (w w' : World) :
  notified ls w w' -> projects w < length (arrays w) -> storeRefs w' = storeRefs w.
Proof.
  intros (F & _ & _ & O & _) H. unfold storeRefs, array.
  rewrite (fixed_projects _ _ F). now rewrite O.
Qed.

(** ** Well-formed heaps *)

Lemma wf_notifyAll (ls : list Listener) (w : World) :
  wf w -> wf (notifyAll ls w).
Proof.
  intros [Hp Hr].
  pose proof (notifyAll_notified ls w Hp) as N.
  pose proof (notified_storeRefs _ _ _ N Hp) as R.
  destruct N as (F & _ & A & _ & P & _).
  split.
  - rewrite (fixed_projects _ _ F), A. lia.
  - rewrite R, P. exact Hr.
Qed.

Lemma storeRefs_push (r : ref) (w : World) :
  projects w < length (arrays w) ->
  storeRefs (push (projects w) r w) = storeRefs w ++ [r].
Proof.
  intros H. unfold storeRefs, push, array. simpl.
  rewrite list_lookup_alter_eq.
  destruct (lookup_lt_is_Some_2 _ _ H) as [l Hl]. now rewrite Hl.
Qed.

(** The state in which [addProject] starts to notify: the new project is
    the last object of the heap and the last element of [projects]. *)
Lemma addProject_unfold (t d : jsstring) (n : number) (w : World) :
  addProject t d n w
  = notify
      (push (projects w) (length (objects w))
         (withObjects
            (objects w ++ [mkProject (random w (drawn w)) t d n Active])
            (withDrawn (S (drawn w)) w))).
Proof. reflexivity. Qed.

Lemma wf_addProject (t d : jsstring) (n : number) (w : World) :
  wf w -> wf (addProject t d n w).
Proof.
  intros [Hp Hr]. rewrite addProject_unfold. apply wf_notifyAll.
  set (w0 := withObjects _ _).
  assert (Hp0 : projects w0 < length (arrays w0)) by exact Hp.
  split.
  - simpl. now rewrite length_alter.
  - change (projects w) with (projects w0). rewrite storeRefs_push by exact Hp0.
    change (storeRefs w0) with (storeRefs w).
    simpl. rewrite length_app. simpl. apply Forall_app. split.
    + eapply Forall_impl; [exact Hr|]. simpl. intros; lia.
    + constructor; [lia | constructor].
Qed.

Lemma wf_moveProject (i : jsstring) (s : ProjectStatus) (w : World) :
  wf w -> wf (moveProject i s w).
Proof.
  intros [Hp Hr]. unfold moveProject.
  destruct (find _ _) as [r|]; [|now split].
  apply wf_notifyAll. split; [exact Hp|].
  unfold storeRefs, array. simpl. rewrite length_alter. exact Hr.
Qed.

Lemma wf_step (w : World) (c : Call) : wf w -> wf (step w c).
Proof.
  destruct c; simpl; intros H.
  - exact H.
  - exact H.
  - now apply wf_addProject.
  - now apply wf_moveProject.
Qed.

Lemma wf_run (cs : list Call) : forall w, wf w -> wf (run cs w).
Proof.
  induction cs as [|c cs IH]; intros w H; simpl; [exact H|].
  apply IH. now apply wf_step.
Qed.

Lemma wf_boot (rand : nat -> jsstring) : wf (boot rand).
Proof. split; [simpl; lia | constructor]. Qed.

Lemma wf_reachable (rand : nat -> jsstring) (cs : list Call) :
  wf (run cs (boot rand)).
Proof. apply wf_run, wf_boot. Qed.

(** ** The program's invariant *)

Lemma notifyOne_list (this : nat) (u : ProjectList) (w : World) :
  lists w !! this = Some u ->
  lists (notifyOne (ListListener this) w)
  = <[this := mkProjectList (type u)
                (filterProjects (type u) (objects w) (storeRefs w))
                (renderProjects (objects w)
                   (filterProjects (type u) (objects w) (storeRefs w)))]>
      (lists w).
Proof.
  intros H. rewrite notifyOne_unfold. simpl. unfold listListener. simpl.
  rewrite H. unfold array. simpl. now rewrite list_lookup_middle.
Qed.

(** Notifying the two lists brings both columns up to date. *)
Lemma notify_columns (a f : ProjectList) (w : World) :
  listeners w = [ListListener 0; ListListener 1] ->
  projects w < length (arrays w) ->
  lists w = [a; f] -> type a = active -> type f = finished ->
  lists (notify w) = [column active w; column finished w].
Proof.
  intros Hl Hp Hls Ha Hf. unfold notify. rewrite Hl. simpl.
  set (w1 := notifyOne (ListListener 0) w).
  assert (L1 : lists w1 = [column active w; f]).
  { unfold w1. rewrite (notifyOne_list 0 a) by now rewrite Hls.
    rewrite Hls, Ha. reflexivity. }
  assert (O1 : objects w1 = objects w) by now apply notifyOne_objects.
  assert (R1 : storeRefs w1 = storeRefs w).
  { eapply served_storeRefs; [apply notifyOne_served | exact Hp]. }
  rewrite (notifyOne_list 1 f) by now rewrite L1.
  rewrite L1, Hf, O1, R1. reflexivity.
Qed.

Lemma column_ext (t : ListType) (w w' : World) :
  objects w' = objects w -> storeRefs w' = storeRefs w ->
  column t w' = column t w.
Proof. intros O R. unfold column. now rewrite O, R. Qed.

Lemma map_id_alter (s : ProjectStatus) (r : ref) (objs : list Project) :
  map id (alter (setStatus s) r objs) = map id objs.
Proof.
  apply list_eq. intros j. change map with (@fmap list _) .
  rewrite !list_lookup_fmap, list_lookup_alter.
  case_decide; [subst j|reflexivity]. now destruct (objs !! r).
Qed.

(** What remains of the invariant while the lists are out of date, and
    what a notification then restores. *)
Lemma Inv_notify (rand : nat -> jsstring) (a f : ProjectList) (w : World) :
  listeners w = [ListListener 0; ListListener 1] ->
  projects w < length (arrays w) ->
  storeRefs w = seq 0 (length (objects w)) ->
  random w = rand -> drawn w = length (objects w) ->
  map id (objects w) = map rand (seq 0 (length (objects w))) ->
  lists w = [a; f] -> type a = active -> type f = finished ->
  Inv rand (notify w).
Proof.
  intros Hl Hp Hr Hrand Hd Hid Hls Ha Hf.
  pose proof (notify_columns a f w Hl Hp Hls Ha Hf) as C.
  pose proof (notifyAll_notified (listeners w) w Hp) as N.
  pose proof (notified_storeRefs _ _ _ N Hp) as R.
  assert (O : objects (notify w) = objects w).
  { apply notifyAll_objects. now rewrite Hl. }
  destruct N as (F & _ & A & _ & _ & _). fold (notify w) in F, A, R.
  destruct (fixed_random _ _ F) as [F1 F2].
  unfold Inv. rewrite (fixed_listeners _ _ F), (fixed_projects _ _ F).
  rewrite F1, F2, O, R, A, C, !(column_ext _ _ _ O R).
  repeat split; try assumption. lia.
Qed.

Lemma Inv_program (rand : nat -> jsstring) : Inv rand (program rand).
Proof. repeat split. simpl. lia. Qed.

Lemma Inv_addProject (rand : nat -> jsstring) (t d : jsstring) (n : number)
    (w : World) :
  Inv rand w -> Inv rand (addProject t d n w).
Proof.
  intros (Hl & Hp & Hr & Hrand & Hd & Hid & Hls).
  rewrite addProject_unfold.
  set (w0 := withObjects _ _).
  assert (Hp0 : projects w0 < length (arrays w0)) by exact Hp.
  apply (Inv_notify rand (column active w) (column finished w)).
  - exact Hl.
  - simpl. now rewrite length_alter.
  - change (projects w) with (projects w0). rewrite storeRefs_push by exact Hp0.
    change (storeRefs w0) with (storeRefs w). rewrite Hr. simpl.
    rewrite length_app. simpl. rewrite Nat.add_1_r. now rewrite seq_S.
  - exact Hrand.
  - simpl. rewrite length_app. simpl. lia.
  - simpl. rewrite length_app, map_app, Nat.add_1_r, seq_S, map_app, Hid.
    simpl. now rewrite Hrand, Hd.
  - exact Hls.
  - reflexivity.
  - reflexivity.
Qed.

Lemma Inv_moveProject (rand : nat -> jsstring) (i : jsstring)
    (s : ProjectStatus) (w : World) :
  Inv rand w -> Inv rand (moveProject i s w).
Proof.
  intros H. unfold moveProject. destruct (find _ _) as [r|]; [|exact H].
  destruct H as (Hl & Hp & Hr & Hrand & Hd & Hid & Hls).
  apply (Inv_notify rand (column active w) (column finished w));
    simpl; rewrite ?length_alter, ?map_id_alter; try assumption;
    reflexivity.
Qed.

Lemma Inv_step (rand : nat -> jsstring) (w : World) (o : Op) :
  Inv rand w -> Inv rand (step w (call o)).
Proof.
  destruct o; simpl; [apply Inv_addProject | apply Inv_moveProject].
Qed.

Lemma Inv_run (rand : nat -> jsstring) (ops : list Op) :
  forall w, Inv rand w -> Inv rand (run (map call ops) w).
Proof.
  induction ops as [|o ops IH]; intros w H; simpl; [exact H|].
  apply IH. now apply Inv_step.
Qed.

Lemma Inv_reachable (rand : nat -> jsstring) (ops : list Op) :
  Inv rand (run (map call ops) (program rand)).
Proof. apply Inv_run, Inv_program. Qed.

(** ** The input form *)

Lemma submitHandler_valid (ToNumber : jsstring -> number) (w : World) :
  validate (validateTitle (titleInput w))
  && validate (validateDescription (descriptionInput w))
  && validate (validatePeople (ToNumber (peopleInput w))) = true ->
  submitHandler ToNumber w
  = clearInputs
      (addProject (titleInput w) (descriptionInput w)
         (ToNumber (peopleInput w)) w).
Proof. intros H. unfold submitHandler, gatherUserInput. now rewrite H. Qed.

Lemma submitHandler_invalid (ToNumber : jsstring -> number) (w : World) :
  validate (validateTitle (titleInput w))
  && validate (validateDescription (descriptionInput w))
  && validate (validatePeople (ToNumber (peopleInput w))) = false ->
  submitHandler ToNumber w
  = clearInputs (alert (js "Invalid input, please try again!") w).
Proof. intros H. unfold submitHandler, gatherUserInput. now rewrite H. Qed.

(** C8, as the code has it: a title of length 1 or 15 passes exactly when
    it is not blank (the [required] test trims it first), titles of
    length 0 and 16 fail; a head count of 1 and of 10 passes, 0 and 11
    fail. *)
Theorem boundary_values :
  (forall t, length t = 1 \/ length t = 15 ->
     validate (validateTitle t) = negb (blank t))
  /\ (forall t, length t = 0 \/ length t = 16 ->
        validate (validateTitle t) = false)
  /\ validate (validatePeople (ofNat 1)) = true
  /\ validate (validatePeople (ofNat 10)) = true
  /\ validate (validatePeople (ofNat 0)) = false
  /\ validate (validatePeople (ofNat 11)) = false.
Proof.
  split; [|split].
  - intros t [H|H]; rewrite validate_title, H; simpl;
      now rewrite !andb_true_r.
  - intros t [H|H]; rewrite validate_title, H; simpl;
      now rewrite ?andb_false_r.
  - repeat split; rewrite validate_people; unfold num_ge;
      now rewrite !num_le_ofNat.
Qed.

Lemma boundary_values_witness :
  (length (js "a") = 1 \/ length (js "a") = 15)
  /\ validate (validateTitle (js "a")) = negb (blank (js "a"))
  /\ validate (validateTitle (js "a")) = true.
Proof.
  split; [left; reflexivity|].
  split; [|reflexivity].
  apply (proj1 boundary_values (js "a")). left. reflexivity.
Defined.

(** C8 as stated fails: a title of one space has length 1 and does not
    pass. *)
Lemma blank_title_rejected :
  length (js " ") = 1 /\ validate (validateTitle (js " ")) = false.
Proof. split; reflexivity. Qed.

(** C10: the [required] test passes on every number and rejects exactly
    the blank strings (empty, or white space only); with no option set,
    every value is valid. *)
Theorem required_check :
  (forall n a b c d,
     validate (mkValidatable (VNumber n) (Some true) a b c d)
     = validate (mkValidatable (VNumber n) None a b c d))
  /\ (forall n,
        validate (mkValidatable (VNumber n) (Some true) None None None None)
        = true)
  /\ validate (mkValidatable (VNumber (ofNat 0)) (Some true) None None None None)
     = true
  /\ (forall s,
        validate (mkValidatable (VString s) (Some true) None None None None)
        = false
        <-> Forall (fun c => isWhiteSpace c = true) s)
  /\ (forall v,
        validate (mkValidatable v None None None None None) = true).
Proof.
  split; [exact validate_required_number|].
  split; [intros n; now rewrite validate_required_number|].
  split; [reflexivity|].
  split.
  - intros s. unfold validate.
    cbn [value required minLength maxLength min max truthy toString andb].
    rewrite trim_length_0, negb_false_iff. unfold blank.
    rewrite forallb_forall, Forall_forall.
    split; intros H x Hx; apply H; now apply list_elem_of_In.
  - intros [s|n]; reflexivity.
Qed.

Lemma notifyAll_fixed (ls : list Listener) :
  forall w, fixed (notifyAll ls w) = fixed w.
Proof.
  induction ls as [|l ls IH]; intros w; simpl; [reflexivity|].
  rewrite IH. apply notifyOne_served.
Qed.

Lemma addProject_fixed_inputs (t d : jsstring) (n : number) (w : World) :
  titleInput (addProject t d n w) = titleInput w
  /\ descriptionInput (addProject t d n w) = descriptionInput w
  /\ peopleInput (addProject t d n w) = peopleInput w
  /\ alerts (addProject t d n w) = alerts w.
Proof.
  rewrite addProject_unfold. unfold notify.
  set (w1 := push _ _ _).
  destruct (fixed_inputs _ _ (notifyAll_fixed (listeners w1) w1)) as (A & B & C & D).
  now rewrite A, B, C, D.
Qed.

(** C2, as the code has it: [submitHandler] empties the three fields
    whatever the validation said; when the validation fails the user is
    alerted and nothing else changes: no project is added and no listener
    is called. *)
Theorem submit_clears_and_alerts (ToNumber : jsstring -> number) (w : World) :
  let w' := submitHandler ToNumber w in
  (titleInput w' = [] /\ descriptionInput w' = [] /\ peopleInput w' = [])
  /\ (validate (validateTitle (titleInput w))
      && validate (validateDescription (descriptionInput w))
      && validate (validatePeople (ToNumber (peopleInput w))) = false ->
      alerts w' = alerts w ++ [js "Invalid input, please try again!"]
      /\ storeRefs w' = storeRefs w
      /\ storeProjects w' = storeProjects w
      /\ objects w' = objects w
      /\ calls w' = calls w
      /\ lists w' = lists w).
Proof.
  split.
  - unfold submitHandler. destruct (gatherUserInput ToNumber w) as [[[[? ?] ?]|] ?];
      repeat split.
  - intros H. rewrite submitHandler_invalid by exact H. repeat split.
Qed.

Lemma submit_clears_and_alerts_witness :
  let w := filled "ThisTitleIsTooLg" "A description that is forty letters long"
             "5" (program oddDraws) in
  validate (validateTitle (titleInput w))
  && validate (validateDescription (descriptionInput w))
  && validate (validatePeople (digitsToNumber (peopleInput w))) = false
  /\ alerts (submitHandler digitsToNumber w)
     = [js "Invalid input, please try again!"]
  /\ storeProjects (submitHandler digitsToNumber w) = [].
Proof.
  intros w.
  assert (H : validate (validateTitle (titleInput w))
              && validate (validateDescription (descriptionInput w))
              && validate (validatePeople (digitsToNumber (peopleInput w)))
              = false) by reflexivity.
  split; [exact H|].
  destruct (proj2 (submit_clears_and_alerts digitsToNumber w) H)
    as (A & _ & P & _).
  split; [exact A | exact P].
Defined.

(** C2 as stated fails: after a submission that does not validate (the
    title has 16 characters) the fields do not hold what was entered. *)
Lemma invalid_submit_clears_fields :
  let w := filled "ThisTitleIsTooLg" "A description that is forty letters long"
             "5" (program oddDraws) in
  let w' := submitHandler digitsToNumber w in
  length (titleInput w) = 16
  /\ length (descriptionInput w) = 40
  /\ validate (validateTitle (titleInput w)) = false
  /\ storeProjects w' = storeProjects w
  /\ titleInput w' = [] /\ titleInput w' <> titleInput w
  /\ descriptionInput w' <> descriptionInput w
  /\ peopleInput w' <> peopleInput w.
Proof. vm_compute. repeat split; discriminate. Qed.

(** ** The store *)

Lemma omap_lookup_seq (pre l : list Project) :
  omap (fun r => (pre ++ l) !! r) (seq (length pre) (length l)) = l.
Proof.
  revert pre. induction l as [|x l IH]; intros pre; [reflexivity|].
  simpl. rewrite list_lookup_middle by reflexivity. f_equal.
  specialize (IH (pre ++ [x])). rewrite <- app_assoc, length_app in IH.
  simpl in IH. rewrite Nat.add_1_r in IH. exact IH.
Qed.

(** In the program the projects of the store are the objects of the heap. *)
Lemma Inv_storeProjects (rand : nat -> jsstring) (w : World) :
  Inv rand w -> storeProjects w = objects w.
Proof.
  intros (_ & _ & Hr & _). unfold storeProjects. rewrite Hr.
  apply (omap_lookup_seq [] (objects w)).
Qed.

Lemma Inv_withInputs (rand : nat -> jsstring) (t d p : jsstring) (w : World) :
  Inv rand w -> Inv rand (withInputs t d p w).
Proof. intros H. exact H. Qed.

(** What [addProject] does to the objects in the program. *)
Lemma Inv_addProject_objects (rand : nat -> jsstring) (t d : jsstring)
    (n : number) (w : World) :
  Inv rand w ->
  objects (addProject t d n w)
  = objects w ++ [mkProject (rand (length (objects w))) t d n Active].
Proof.
  intros (Hl & _ & _ & Hrand & Hd & _).
  rewrite addProject_unfold. unfold notify.
  rewrite notifyAll_objects; simpl; [now rewrite Hrand, Hd | now rewrite Hl].
Qed.

(** C9, as the code has it: when the three fields validate,
    [submitHandler] calls [addProject] with the title and the description
    as entered, untrimmed, and with the head count as unary plus reads
    it; the store gets one more project with those fields. *)
Theorem submit_adds_entered_values (ToNumber : jsstring -> number)
    (rand : nat -> jsstring) (ops : list Op) (t d p : jsstring) :
  let w := withInputs t d p (run (map call ops) (program rand)) in
  validate (validateTitle t) && validate (validateDescription d)
  && validate (validatePeople (ToNumber p)) = true ->
  submitHandler ToNumber w = clearInputs (addProject t d (ToNumber p) w)
  /\ storeProjects (submitHandler ToNumber w)
     = storeProjects w
       ++ [mkProject (rand (length (storeProjects w))) t d (ToNumber p) Active].
Proof.
  intros w H.
  assert (I : Inv rand w) by apply Inv_withInputs, Inv_reachable.
  assert (E : submitHandler ToNumber w
              = clearInputs (addProject t d (ToNumber p) w))
    by now apply submitHandler_valid.
  split; [exact E|].
  rewrite E.
  change (storeProjects (clearInputs ?x)) with (storeProjects x).
  rewrite (Inv_storeProjects rand) by now apply Inv_addProject.
  rewrite (Inv_storeProjects rand w I).
  now apply Inv_addProject_objects.
Qed.

Lemma submit_adds_entered_values_witness :
  let w := filled "Build API" "Design the REST API" "3" (program oddDraws) in
  validate (validateTitle (js "Build API"))
  && validate (validateDescription (js "Design the REST API"))
  && validate (validatePeople (digitsToNumber (js "3"))) = true
  /\ storeProjects (submitHandler digitsToNumber w)
     = [mkProject (js "0.1") (js "Build API") (js "Design the REST API")
          (ofNat 3) Active].
Proof.
  intros w.
  assert (H : validate (validateTitle (js "Build API"))
              && validate (validateDescription (js "Design the REST API"))
              && validate (validatePeople (digitsToNumber (js "3"))) = true)
    by reflexivity.
  split; [exact H|].
  exact (proj2 (submit_adds_entered_values digitsToNumber oddDraws []
                  (js "Build API") (js "Design the REST API") (js "3") H)).
Defined.

(** C9 as stated fails: a title entered with spaces around it validates
    and is stored with its spaces, not trimmed. *)
Lemma untrimmed_title_stored :
  let w := filled " a " "hello" "5" (program oddDraws) in
  let w' := submitHandler digitsToNumber w in
  validate (validateTitle (titleInput w))
  && validate (validateDescription (descriptionInput w))
  && validate (validatePeople (digitsToNumber (peopleInput w))) = true
  /\ map title (storeProjects w') = [js " a "]
  /\ trim (js " a ") = js "a"
  /\ storeProjects w'
     <> storeProjects
          (clearInputs
             (addProject (trim (titleInput w)) (trim (descriptionInput w))
                (digitsToNumber (peopleInput w)) w)).
Proof. vm_compute. repeat split. discriminate. Qed.

(** C1: [addProject] makes one new project, with status [Active], the
    last element of the sequence, whose other elements keep their order;
    it then calls every registered listener once, in the order of
    registration, each with an array of its own (none is the array of the
    store) that holds the whole updated sequence. Listeners that write to
    no element leave all the projects as [addProject] made them. *)
Theorem addProject_appends_and_notifies (rand : nat -> jsstring)
    (hist : list Call) (t d : jsstring) (n : number) :
  let w := run hist (boot rand) in
  let w' := addProject t d n w in
  let r := length (objects w) in
  let new := mkProject (random w (drawn w)) t d n Active in
  (exists w1, w' = notify w1
     /\ objects w1 = objects w ++ [new]
     /\ storeRefs w1 = storeRefs w ++ [r]
     /\ listeners w1 = listeners w
     /\ calls w1 = calls w)
  /\ storeRefs w' = storeRefs w ++ [r]
  /\ (r ∉ storeRefs w)
  /\ listeners w' = listeners w
  /\ calls w'
     = calls w
       ++ notifications (listeners w) (length (arrays w)) (storeRefs w ++ [r])
  /\ projects w' < length (arrays w)
  /\ (forallb tame (listeners w) = true -> objects w' = objects w ++ [new]).
Proof.
  intros w w' r new.
  destruct (wf_reachable rand hist) as [Hp Hr]. fold w in Hp, Hr.
  unfold w'. rewrite addProject_unfold.
  set (w0 := withObjects _ _).
  set (w1 := push _ _ w0).
  assert (Hp0 : projects w0 < length (arrays w0)) by exact Hp.
  assert (R1 : storeRefs w1 = storeRefs w ++ [r]).
  { unfold w1. change (projects w) with (projects w0).
    now rewrite storeRefs_push. }
  assert (A1 : length (arrays w1) = length (arrays w)).
  { unfold w1. simpl. apply length_alter. }
  assert (Hp1 : projects w1 < length (arrays w1)) by now rewrite A1.
  pose proof (notifyAll_notified (listeners w1) w1 Hp1) as N.
  pose proof (notified_storeRefs _ _ _ N Hp1) as R.
  destruct N as (F & C & _). fold (notify w1) in F, C, R.
  split; [|split; [|split; [|split; [|split; [|split]]]]].
  - exists w1. repeat split. exact R1.
  - now rewrite R.
  - intros Hin. rewrite Forall_forall in Hr. apply Hr in Hin. unfold r in Hin. lia.
  - now rewrite (fixed_listeners _ _ F).
  - now rewrite C, R1, A1.
  - now rewrite (fixed_projects _ _ F).
  - intros T. unfold notify. now rewrite notifyAll_objects.
Qed.

Lemma find_none_all {A : Type} (f : A -> bool) (l : list A) :
  (forall x, x ∈ l -> f x = false) -> find f l = None.
Proof.
  induction l as [|x l IH]; intros H; simpl; [reflexivity|].
  rewrite (H x) by constructor. apply IH. intros y Hy. apply H.
  now constructor.
Qed.

(** C4: [moveProject] with an id that no project of the store has changes
    nothing at all: the sequence, the projects and their order are as
    before, no listener is called, and the call returns normally. *)
Theorem moveProject_unknown_id (w : World) (i : jsstring) (s : ProjectStatus) :
  (forall r p, r ∈ storeRefs w -> objects w !! r = Some p -> id p <> i) ->
  moveProject i s w = w.
Proof.
  intros H. unfold moveProject. rewrite find_none_all; [reflexivity|].
  intros r Hr. unfold hasId. destruct (objects w !! r) as [p|] eqn:E;
    [|reflexivity].
  apply bool_decide_eq_false. now apply (H r p).
Qed.

Lemma addProject_appends_and_notifies_witness :
  let w := run [NewProjectList active; NewProjectList finished;
                call apiProject] (boot oddDraws) in
  forallb tame (listeners w) = true
  /\ objects (addProject (js "Write docs") (js "Explain the API") (ofNat 2) w)
     = objects w
       ++ [mkProject (js "0.3") (js "Write docs") (js "Explain the API")
             (ofNat 2) Active].
Proof.
  intros w.
  assert (T : forallb tame (listeners w) = true) by (vm_compute; reflexivity).
  split; [exact T|].
  pose proof (addProject_appends_and_notifies oddDraws
                [NewProjectList active; NewProjectList finished;
                 call apiProject]
                (js "Write docs") (js "Explain the API") (ofNat 2)) as H.
  cbv zeta in H.
  destruct H as (_ & _ & _ & _ & _ & _ & H). specialize (H T).
  vm_compute in H. vm_compute. exact H.
Defined.

Lemma moveProject_unknown_id_witness :
  let w := run [call apiProject] (program oddDraws) in
  (forall r p, r ∈ storeRefs w -> objects w !! r = Some p ->
     id p <> js "nonexistent-id")
  /\ moveProject (js "nonexistent-id") Finished w = w.
Proof.
  intros w.
  assert (H : forall r p, r ∈ storeRefs w -> objects w !! r = Some p ->
                id p <> js "nonexistent-id").
  { assert (R : storeRefs w = [0]) by (vm_compute; reflexivity).
    assert (O : map id (objects w) = [js "0.1"]) by (vm_compute; reflexivity).
    intros r p Hr Hp. rewrite R in Hr. apply list_elem_of_In in Hr.
    destruct Hr as [<-|[]].
    apply (f_equal (fmap id)) in Hp. rewrite <- list_lookup_fmap in Hp.
    change (@fmap list _) with map in Hp. rewrite O in Hp.
    injection Hp as <-. discriminate. }
  split; [exact H|].
  exact (moveProject_unknown_id w (js "nonexistent-id") Finished H).
Defined.

Lemma tame_array_edits (fs : list (list ref -> list ref)) :
  tame (Callback (map OnArray fs)) = true.
Proof. simpl. induction fs as [|f fs IH]; [reflexivity | exact IH]. Qed.

(** C6, as the code has it: whatever a callback does to the array it is
    handed (the snapshot made by [slice]), the sequence of the store and
    every project stay as they were. *)
Theorem snapshot_array_isolated (rand : nat -> jsstring) (hist : list Call)
    (fs : list (list ref -> list ref)) :
  let w := run hist (boot rand) in
  let w' := notifyOne (Callback (map OnArray fs)) w in
  isolated (map OnArray fs) w
  /\ storeRefs w' = storeRefs w
  /\ objects w' = objects w
  /\ arrays w' !! projects w' = arrays w !! projects w.
Proof.
  intros w w'.
  destruct (wf_reachable rand hist) as [Hp _]. fold w in Hp.
  pose proof (notifyOne_served (Callback (map OnArray fs)) w) as S.
  pose proof (served_storeRefs _ _ _ S Hp) as R. fold w' in R, S.
  assert (O : objects w' = objects w).
  { apply notifyOne_objects, tame_array_edits. }
  destruct S as (F & _ & _ & A & _).
  assert (I : isolated (map OnArray fs) w).
  { unfold isolated. fold w'. split; [exact R|].
    unfold storeProjects. now rewrite R, O. }
  repeat split; try assumption; try apply I.
  rewrite (fixed_projects _ _ F). now apply A.
Qed.

(** C6 as stated fails: the elements of the snapshot are the projects of
    the store themselves, and a callback that writes to them changes
    them. *)
Lemma snapshot_elements_shared :
  let w := run [call apiProject] (program oddDraws) in
  map status (storeProjects w) = [Active]
  /\ map status (storeProjects (notifyOne (Callback finishAll) w)) = [Finished]
  /\ ~ isolated finishAll w.
Proof.
  vm_compute. repeat split. intros [_ H]. discriminate H.
Qed.

(** ** Ids *)

Lemma find_unique_id (objs : list Project) (r : ref) (P : Project) :
  NoDup (map id objs) -> objs !! r = Some P ->
  find (hasId (id P) objs) (seq 0 (length objs)) = Some r.
Proof.
  intros Hnd Hr.
  assert (Hid : map id objs !! r = Some (id P)).
  { change map with (@fmap list _). now rewrite list_lookup_fmap, Hr. }
  destruct (find _ _) as [r'|] eqn:E.
  - apply find_some in E as [_ Hh]. unfold hasId in Hh.
    destruct (objs !! r') as [p|] eqn:Er'; [|discriminate].
    apply bool_decide_eq_true in Hh.
    assert (Hid' : map id objs !! r' = Some (id P)).
    { change map with (@fmap list _). rewrite list_lookup_fmap, Er'.
      simpl. now rewrite Hh. }
    f_equal. exact (NoDup_lookup _ _ _ _ Hnd Hid' Hid).
  - exfalso. eapply find_none with (x := r) in E.
    + unfold hasId in E. rewrite Hr in E.
      apply bool_decide_eq_false in E. now apply E.
    + apply in_seq. apply lookup_lt_Some in Hr. lia.
Qed.

Lemma alter_known (objs : list Project) (r : ref) (P : Project)
    (f : Project -> Project) :
  objs !! r = Some P -> alter f r objs = <[r := f P]> objs.
Proof.
  intros H. apply list_eq. intros j.
  rewrite list_lookup_alter, list_lookup_insert.
  pose proof (lookup_lt_Some _ _ _ H).
  destruct (decide (r = j)) as [<-|]; [|now rewrite decide_False by tauto].
  rewrite decide_True by tauto. now rewrite H.
Qed.

Lemma NoDup_draws (rand : nat -> jsstring) (n : nat) :
  distinctDraws rand n -> NoDup (map rand (seq 0 n)).
Proof.
  intros H. apply NoDup_alt. intros i j x Hi Hj.
  change map with (@fmap list _) in Hi, Hj.
  rewrite list_lookup_fmap in Hi, Hj.
  destruct (seq 0 n !! i) as [a|] eqn:Ei; [|discriminate].
  destruct (seq 0 n !! j) as [b|] eqn:Ej; [|discriminate].
  apply lookup_seq in Ei as [-> ?], Ej as [-> ?]. simpl in *.
  apply H; congruence.
Qed.

(** C3, as the modelled [moveProject] and the code have it: in a store
    whose ids are pairwise distinct, [moveProject(P.id, s)] gives [P] the
    status [s] and changes nothing else; [P] is then the one project with
    its id, and the listeners are called as by [addProject]. *)
Theorem moveProject_moves_the_project (rand : nat -> jsstring)
    (ops : list Op) (r : ref) (P : Project) (s : ProjectStatus) :
  let w := run (map call ops) (program rand) in
  let w' := moveProject (id P) s w in
  NoDup (map id (storeProjects w)) ->
  r ∈ storeRefs w -> objects w !! r = Some P ->
  storeRefs w' = storeRefs w
  /\ objects w' = <[r := setStatus s P]> (objects w)
  /\ r ∈ storeRefs w'
  /\ objects w' !! r = Some (setStatus s P)
  /\ (forall r' P', r' ∈ storeRefs w' -> objects w' !! r' = Some P' ->
        id P' = id P -> r' = r /\ status P' = s)
  /\ calls w'
     = calls w ++ notifications (listeners w) (length (arrays w)) (storeRefs w)
  /\ projects w' < length (arrays w).
Proof.
  intros w w' Hnd Hin Hr.
  pose proof (Inv_reachable rand ops) as I. fold w in I.
  rewrite (Inv_storeProjects rand w I) in Hnd.
  destruct I as (Hl & Hp & Hrefs & _).
  assert (E : w' = notify (withObjects (alter (setStatus s) r (objects w)) w)).
  { unfold w', moveProject. fold (storeRefs w).
    now rewrite Hrefs, (find_unique_id _ r P Hnd Hr). }
  set (w1 := withObjects _ w) in E.
  assert (Hp1 : projects w1 < length (arrays w1)) by exact Hp.
  pose proof (notifyAll_notified (listeners w1) w1 Hp1) as N.
  pose proof (notified_storeRefs _ _ _ N Hp1) as R.
  destruct N as (F & C & _). fold (notify w1) in F, C, R.
  rewrite <- E in F, C, R.
  assert (O : objects w' = <[r := setStatus s P]> (objects w)).
  { rewrite E. unfold notify. rewrite notifyAll_objects.
    - simpl. now apply alter_known.
    - change (listeners w1) with (listeners w). now rewrite Hl. }
  assert (Or : objects w' !! r = Some (setStatus s P)).
  { rewrite O. apply list_lookup_insert_eq. now apply lookup_lt_Some in Hr. }
  change (storeRefs w1) with (storeRefs w) in R, C.
  assert (Hids : map id (objects w') = map id (objects w)).
  { rewrite O, <- (alter_known _ _ _ (setStatus s) Hr). apply map_id_alter. }
  assert (U : forall r' P', objects w' !! r' = Some P' -> id P' = id P ->
                r' = r).
  { intros r' P' HP' Hid.
    apply (NoDup_lookup (map id (objects w)) r' r (id P) Hnd).
    - rewrite <- Hids. change map with (@fmap list _).
      rewrite list_lookup_fmap, HP'. simpl. now f_equal.
    - change map with (@fmap list _). now rewrite list_lookup_fmap, Hr. }
  split; [exact R|]. split; [exact O|]. split; [now rewrite R|].
  split; [exact Or|]. split; [|split].
  - intros r' P' _ HP' Hid. pose proof (U r' P' HP' Hid) as ->.
    split; [reflexivity|]. rewrite Or in HP'. now injection HP' as <-.
  - exact C.
  - now rewrite (fixed_projects _ _ F).
Qed.

Lemma moveProject_moves_the_project_witness :
  let w := run (map call [apiProject; docsProject]) (program oddDraws) in
  let P := mkProject (js "0.1") (js "Build API") (js "Design the REST API")
             (ofNat 3) Active in
  NoDup (map id (storeProjects w))
  /\ 0 ∈ storeRefs w
  /\ objects w !! 0 = Some P
  /\ objects (moveProject (js "0.1") Finished w)
     = <[0 := setStatus Finished P]> (objects w).
Proof.
  intros w P.
  assert (Hnd : NoDup (map id (storeProjects w))).
  { assert (E : map id (storeProjects w) = [js "0.1"; js "0.3"])
      by (vm_compute; reflexivity).
    rewrite E. apply NoDup_cons. split.
    - intros H. apply list_elem_of_In in H. destruct H as [H|[]].
      discriminate H.
    - apply NoDup_singleton. }
  assert (Hin : 0 ∈ storeRefs w).
  { assert (E : storeRefs w = [0; 1]) by (vm_compute; reflexivity).
    rewrite E. constructor. }
  assert (Hr : objects w !! 0 = Some P) by (vm_compute; reflexivity).
  split; [exact Hnd|]. split; [exact Hin|]. split; [exact Hr|].
  exact (proj1 (proj2 (moveProject_moves_the_project oddDraws
                         [apiProject; docsProject] 0 P Finished
                         Hnd Hin Hr))).
Defined.

(** C3 as stated fails when [Math.random] has returned the same number
    twice: two projects carry the id, [moveProject] changes the first of
    them, and the second, asked to move by its own id, keeps its status. *)
Lemma moveProject_with_equal_ids :
  let w := run (map call [apiProject; docsProject]) (program sameDraw) in
  let w' := moveProject (js "0.5") Finished w in
  map id (storeProjects w) = [js "0.5"; js "0.5"]
  /\ map status (storeProjects w) = [Active; Active]
  /\ map id (storeProjects w') = [js "0.5"; js "0.5"]
  /\ map status (storeProjects w') = [Finished; Active]
  /\ length (List.filter (fun p => bool_decide (id p = js "0.5"))
               (storeProjects w')) = 2.
Proof. vm_compute. repeat split. Qed.

(** C5, as the code has it: the ids of the projects are, in order, the
    strings [Math.random().toString()] returned; they are pairwise
    distinct when those strings are; and no call changes the id of a
    project. *)
Theorem ids_are_the_draws (rand : nat -> jsstring) (ops : list Op) :
  let w := run (map call ops) (program rand) in
  map id (storeProjects w) = map rand (seq 0 (length (storeProjects w)))
  /\ (distinctDraws rand (length (storeProjects w)) ->
      NoDup (map id (storeProjects w)))
  /\ (forall o r p, objects w !! r = Some p ->
        exists p', objects (step w (call o)) !! r = Some p' /\ id p' = id p).
Proof.
  intros w.
  pose proof (Inv_reachable rand ops) as I. fold w in I.
  rewrite (Inv_storeProjects rand w I).
  pose proof I as (_ & _ & _ & _ & _ & Hid & _).
  split; [exact Hid|]. split.
  - intros H. rewrite Hid. now apply NoDup_draws.
  - intros o r p Hr.
    pose proof (Inv_step rand w o I) as (_ & _ & _ & _ & _ & Hid' & _).
    assert (Hlen : length (objects w) <= length (objects (step w (call o)))).
    { destruct o as [t d n|i s]; simpl.
      - rewrite (Inv_addProject_objects rand) by exact I.
        rewrite length_app. lia.
      - unfold moveProject. destruct (find _ _); [|lia].
        unfold notify. rewrite notifyAll_objects.
        + simpl. rewrite length_alter. lia.
        + destruct I as (Hl & _). simpl. now rewrite Hl. }
    pose proof (lookup_lt_Some _ _ _ Hr) as Hlt.
    destruct (lookup_lt_is_Some_2 (objects (step w (call o))) r) as [p' Hp'];
      [lia|].
    exists p'. split; [exact Hp'|].
    assert (A : map id (objects w) !! r = Some (id p)).
    { change map with (@fmap list _). now rewrite list_lookup_fmap, Hr. }
    assert (B : map id (objects (step w (call o))) !! r = Some (id p')).
    { change map with (@fmap list _). now rewrite list_lookup_fmap, Hp'. }
    rewrite Hid in A. rewrite Hid' in B.
    change map with (@fmap list _) in A, B.
    rewrite list_lookup_fmap in A, B.
    rewrite lookup_seq_lt in A by lia. rewrite lookup_seq_lt in B by lia.
    simpl in A, B. congruence.
Qed.

Lemma ids_are_the_draws_witness :
  let w := run (map call [apiProject; docsProject]) (program oddDraws) in
  distinctDraws oddDraws (length (storeProjects w))
  /\ NoDup (map id (storeProjects w)).
Proof.
  intros w.
  assert (D : distinctDraws oddDraws (length (storeProjects w))).
  { assert (E : length (storeProjects w) = 2) by (vm_compute; reflexivity).
    rewrite E. intros i j Hi Hj H.
    destruct i as [|[|i]], j as [|[|j]]; try lia; try reflexivity;
      vm_compute in H; discriminate H. }
  split; [exact D|].
  exact (proj1 (proj2 (ids_are_the_draws oddDraws [apiProject; docsProject])) D).
Defined.

(** C5 as stated fails when [Math.random] returns the same number twice:
    the two projects of the store then have the same id. *)
Lemma equal_draws_equal_ids :
  let w := run (map call [apiProject; docsProject]) (program sameDraw) in
  map id (storeProjects w) = [js "0.5"; js "0.5"]
  /\ ~ NoDup (map id (storeProjects w)).
Proof.
  vm_compute. split; [reflexivity|]. intros H.
  apply NoDup_cons in H as [H _]. apply H. constructor.
Qed.

(** ** The two columns *)

Lemma relevant_active (p : Project) : relevant active p = true <-> status p = Active.
Proof. simpl. destruct (status p); simpl; split; congruence. Qed.

Lemma relevant_finished (p : Project) :
  relevant finished p = true <-> status p = Finished.
Proof. simpl. destruct (status p); simpl; split; congruence. Qed.

Lemma filterProjects_elem (t : ListType) (objs : list Project)
    (items : list ref) (r : ref) :
  r ∈ filterProjects t objs items
  <-> r ∈ items /\ exists p, objs !! r = Some p /\ relevant t p = true.
Proof.
  unfold filterProjects. rewrite !list_elem_of_In, filter_In.
  split.
  - intros [H1 H2]. split; [exact H1|].
    destruct (objs !! r) as [p|]; [|discriminate]. now exists p.
  - intros [H1 (p & Hp & H2)]. split; [exact H1|]. now rewrite Hp.
Qed.

(** Every valid reference falls in exactly one of the two columns. *)
Lemma filterProjects_partition (objs : list Project) (items : list ref) :
  Forall (fun r => r < length objs) items ->
  length (filterProjects active objs items)
  + length (filterProjects finished objs items) = length items.
Proof.
  induction 1 as [|r items Hr _ IH]; [reflexivity|].
  unfold filterProjects in *. simpl in *.
  destruct (lookup_lt_is_Some_2 objs r Hr) as [p Hp]. rewrite Hp.
  destruct (status p); simpl; lia.
Qed.

Lemma omap_length_all {A B : Type} (f : A -> option B) (l : list A) :
  Forall (fun x => is_Some (f x)) l -> length (omap f l) = length l.
Proof.
  induction 1 as [|x l [y Hy] _ IH]; [reflexivity|].
  change (omap f (x :: l))
    with (match f x with Some y => y :: omap f l | None => omap f l end).
  rewrite Hy. simpl. now rewrite IH.
Qed.

(** Each assigned project gets its row. *)
Lemma renderProjects_length (t : ListType) (objs : list Project)
    (items : list ref) :
  length (renderProjects objs (filterProjects t objs items))
  = length (filterProjects t objs items).
Proof.
  apply omap_length_all, Forall_forall. intros r Hr.
  apply filterProjects_elem in Hr as [_ (p & Hp & _)].
  rewrite Hp. now exists (title p).
Qed.

Lemma Inv_objects_count (rand : nat -> jsstring) (ops : list Op) :
  forall w, Inv rand w ->
  length (objects (run (map call ops) w))
  = length (objects w) + length (List.filter isAdd ops).
Proof.
  induction ops as [|o ops IH]; intros w I; simpl; [lia|].
  rewrite IH by now apply Inv_step.
  destruct o as [t d n|i s]; simpl.
  - rewrite (Inv_addProject_objects rand) by exact I.
    rewrite length_app. simpl. lia.
  - f_equal. unfold moveProject. destruct (find _ _); [|reflexivity].
    unfold notify. rewrite notifyAll_objects.
    + simpl. apply length_alter.
    + destruct I as (Hl & _). simpl. now rewrite Hl.
Qed.

(** C7, as the code has it: after any calls of [addProject] and
    [moveProject], [n] of them of [addProject], each list holds exactly
    the projects of the store with its status, in the order of the store;
    the two lists, and their rows, count [n] together; no project is in
    both; and when the random strings drawn differ, no id is in both. *)
Theorem columns_partition_the_store (rand : nat -> jsstring) (ops : list Op) :
  let w := run (map call ops) (program rand) in
  let n := length (List.filter isAdd ops) in
  let a := column active w in
  let f := column finished w in
  lists w = [a; f]
  /\ length (storeRefs w) = n
  /\ (forall r, r ∈ assignedProjects a
        <-> r ∈ storeRefs w
            /\ exists p, objects w !! r = Some p /\ status p = Active)
  /\ (forall r, r ∈ assignedProjects f
        <-> r ∈ storeRefs w
            /\ exists p, objects w !! r = Some p /\ status p = Finished)
  /\ length (assignedProjects a) + length (assignedProjects f) = n
  /\ length (rendered a) + length (rendered f) = n
  /\ (forall r, r ∈ assignedProjects a -> r ∉ assignedProjects f)
  /\ (distinctDraws rand n ->
      forall r r' p p',
        r ∈ assignedProjects a -> r' ∈ assignedProjects f ->
        objects w !! r = Some p -> objects w !! r' = Some p' ->
        id p <> id p').
Proof.
  intros w n a f.
  pose proof (Inv_reachable rand ops) as I. fold w in I.
  pose proof (Inv_objects_count rand ops _ (Inv_program rand)) as Hn.
  fold w in Hn. simpl in Hn. fold n in Hn.
  pose proof I as (_ & _ & Hrefs & _ & _ & Hid & Hls).
  assert (Hlen : length (storeRefs w) = n) by now rewrite Hrefs, length_seq.
  assert (Hv : Forall (fun r => r < length (objects w)) (storeRefs w)).
  { rewrite Hrefs. apply Forall_forall. intros r Hr.
    apply list_elem_of_In, in_seq in Hr. lia. }
  assert (Ha : forall r, r ∈ assignedProjects a
             <-> r ∈ storeRefs w
                 /\ exists p, objects w !! r = Some p /\ status p = Active).
  { intros r. unfold a, column. simpl assignedProjects.
    rewrite filterProjects_elem. split; intros [H1 (p & Hp & H2)];
      (split; [exact H1|]); exists p; (split; [exact Hp|]);
      now apply relevant_active. }
  assert (Hf : forall r, r ∈ assignedProjects f
             <-> r ∈ storeRefs w
                 /\ exists p, objects w !! r = Some p /\ status p = Finished).
  { intros r. unfold f, column. simpl assignedProjects.
    rewrite filterProjects_elem. split; intros [H1 (p & Hp & H2)];
      (split; [exact H1|]); exists p; (split; [exact Hp|]);
      now apply relevant_finished. }
  assert (Hdis : forall r, r ∈ assignedProjects a -> r ∉ assignedProjects f).
  { intros r H1 H2. apply Ha in H1 as [_ (p & Hp & H1)].
    apply Hf in H2 as [_ (p' & Hp' & H2)]. congruence. }
  split; [exact Hls|]. split; [exact Hlen|]. split; [exact Ha|].
  split; [exact Hf|]. split; [|split; [|split; [exact Hdis|]]].
  - unfold a, f, column. simpl assignedProjects. rewrite <- Hlen.
    now apply filterProjects_partition.
  - unfold a, f, column. simpl rendered. rewrite !renderProjects_length.
    rewrite <- Hlen. now apply filterProjects_partition.
  - intros D r r' p p' H1 H2 Hp Hp' E.
    assert (Hnd : NoDup (map id (objects w))).
    { rewrite Hid, Hn. now apply NoDup_draws. }
    assert (r = r'); [|subst r'; now apply (Hdis r)].
    apply (NoDup_lookup (map id (objects w)) r r' (id p) Hnd);
      change map with (@fmap list _); rewrite list_lookup_fmap.
    + now rewrite Hp.
    + rewrite Hp'. simpl. now rewrite E.
Qed.

Lemma columns_partition_the_store_witness :
  let ops := [apiProject; docsProject; Move (js "0.1") Finished] in
  let w := run (map call ops) (program oddDraws) in
  distinctDraws oddDraws 2
  /\ (forall r r' p p',
        r ∈ assignedProjects (column active w) ->
        r' ∈ assignedProjects (column finished w) ->
        objects w !! r = Some p -> objects w !! r' = Some p' ->
        id p <> id p').
Proof.
  intros ops w.
  assert (D : distinctDraws oddDraws 2).
  { intros i j Hi Hj H.
    destruct i as [|[|i]], j as [|[|j]]; try lia; try reflexivity;
      vm_compute in H; discriminate H. }
  split; [exact D|].
  pose proof (columns_partition_the_store oddDraws ops) as H.
  cbv zeta in H.
  exact (proj2 (proj2 (proj2 (proj2 (proj2 (proj2 (proj2 H)))))) D).
Defined.

(** C7 as stated fails when [Math.random] has returned the same number
    twice: after one of the two projects is moved, the same id is shown in
    the active and in the finished column. *)
Lemma equal_ids_in_both_columns :
  let ops := [apiProject; docsProject; Move (js "0.5") Finished] in
  let w := run (map call ops) (program sameDraw) in
  map (fun u => omap (fun r => id <$> objects w !! r) (assignedProjects u))
    (lists w)
  = [[js "0.5"]; [js "0.5"]]
  /\ map type (lists w) = [active; finished].
Proof. vm_compute. split; reflexivity. Qed.

(** ** More on validation *)

Lemma signed_ofZ (z : Z) : signed (z <? 0)%Z (Z.abs_N z) = z.
Proof.
  unfold signed. rewrite N2Z.inj_abs_N.
  destruct (Z.ltb_spec z 0); lia.
Qed.

Lemma num_le_ofZ (a b : Z) : num_le (ofZ a) (ofZ b) = (a <=? b)%Z.
Proof.
  unfold num_le, ofZ. rewrite !signed_ofZ, Z.min_id, Z.sub_diag.
  change (10 ^ 0)%Z with 1%Z. now rewrite !Z.mul_1_r.
Qed.

(** The text fields of the form: a title passes exactly when it is not
    blank and has 1 to 15 code units, a description exactly when it is not
    blank and has 5 to 50; a text of white space only fails however long
    it is. *)
Theorem text_fields_validation :
  (forall t, validate (validateTitle t) = true
             <-> blank t = false /\ 1 <= length t <= 15)
  /\ (forall d, validate (validateDescription d) = true
                <-> blank d = false /\ 5 <= length d <= 50)
  /\ (forall s, blank s = true ->
        validate (validateTitle s) = false
        /\ validate (validateDescription s) = false).
Proof.
  split; [|split].
  - intros t. rewrite validate_title, !andb_true_iff, negb_true_iff.
    rewrite !Nat.leb_le. tauto.
  - intros d. rewrite validate_description, !andb_true_iff, negb_true_iff.
    rewrite !Nat.leb_le. tauto.
  - intros s H. rewrite validate_title, validate_description, H.
    split; reflexivity.
Qed.

Lemma text_fields_validation_witness :
  blank (js "     ") = true
  /\ validate (validateTitle (js "     ")) = false
  /\ validate (validateDescription (js "     ")) = false.
Proof.
  split; [reflexivity|].
  apply (proj2 (proj2 text_fields_validation) (js "     ")). reflexivity.
Defined.

(** The head count: a whole number passes exactly from 1 to 10; a number
    of tenths [m/10] passes exactly from 1.0 to 10.0, whole or not; [NaN]
    (what unary plus makes of text that is no number) and the infinities
    fail. *)
Theorem people_validation :
  (forall z, validate (validatePeople (ofZ z)) = true <-> (1 <= z <= 10)%Z)
  /\ (forall m, validate (validatePeople (Num false m (-1))) = true
                <-> (10 <= m <= 100)%N)
  /\ validate (validatePeople NaN) = false
  /\ (forall negative, validate (validatePeople (Inf negative)) = false).
Proof.
  split; [|split; [|split]].
  - intros z. rewrite validate_people. unfold num_ge.
    change (ofNat 1) with (ofZ 1). change (ofNat 10) with (ofZ 10).
    rewrite !num_le_ofZ, andb_true_iff, !Z.leb_le. tauto.
  - intros m. rewrite validate_people. unfold num_ge, num_le, ofNat, signed.
    simpl N.of_nat. change (Z.min 0 (-1)) with (-1)%Z.
    change (Z.min (-1) 0) with (-1)%Z.
    change (0 - -1)%Z with 1%Z. change (-1 - -1)%Z with 0%Z.
    change (10 ^ 0)%Z with 1%Z. change (10 ^ 1)%Z with 10%Z.
    rewrite andb_true_iff, !Z.leb_le. lia.
  - reflexivity.
  - intros [|]; reflexivity.
Qed.

(** [gatherUserInput] in full: it returns the three values, as entered and
    as unary plus reads the head count, and changes nothing, exactly when
    the title is not blank and has 1 to 15 code units, the description is
    not blank and has 5 to 50, and the head count is from 1 to 10;
    otherwise it returns nothing and shows one alert. *)
Theorem gatherUserInput_accepts (ToNumber : jsstring -> number) (w : World) :
  let t := titleInput w in
  let d := descriptionInput w in
  let n := ToNumber (peopleInput w) in
  let ok := (blank t = false /\ 1 <= length t <= 15)
            /\ (blank d = false /\ 5 <= length d <= 50)
            /\ num_ge n (ofNat 1) = true /\ num_le n (ofNat 10) = true in
  (ok -> gatherUserInput ToNumber w = (Some (t, d, n), w))
  /\ (~ ok -> gatherUserInput ToNumber w
             = (None, alert (js "Invalid input, please try again!") w)).
Proof.
  intros t d n ok.
  assert (E : validate (validateTitle t) && validate (validateDescription d)
              && validate (validatePeople n) = true <-> ok).
  { unfold ok. rewrite !andb_true_iff, validate_people, andb_true_iff.
    rewrite validate_title, validate_description.
    rewrite !andb_true_iff, !negb_true_iff, !Nat.leb_le. tauto. }
  unfold gatherUserInput. fold t d n.
  destruct (validate (validateTitle t) && validate (validateDescription d)
            && validate (validatePeople n)).
  - split; [reflexivity|]. intros H. exfalso. apply H, E. reflexivity.
  - split; [|reflexivity]. intros H. apply E in H. discriminate H.
Qed.

Lemma gatherUserInput_accepts_witness :
  let w := filled "Build API" "Design the REST API" "3" (program oddDraws) in
  ((blank (titleInput w) = false /\ 1 <= length (titleInput w) <= 15)
   /\ (blank (descriptionInput w) = false
       /\ 5 <= length (descriptionInput w) <= 50)
   /\ num_ge (digitsToNumber (peopleInput w)) (ofNat 1) = true
   /\ num_le (digitsToNumber (peopleInput w)) (ofNat 10) = true)
  /\ gatherUserInput digitsToNumber w
     = (Some (js "Build API", js "Design the REST API", ofNat 3), w).
Proof.
  intros w.
  assert (H : (blank (titleInput w) = false
               /\ 1 <= length (titleInput w) <= 15)
              /\ (blank (descriptionInput w) = false
                  /\ 5 <= length (descriptionInput w) <= 50)
              /\ num_ge (digitsToNumber (peopleInput w)) (ofNat 1) = true
              /\ num_le (digitsToNumber (peopleInput w)) (ofNat 10) = true).
  { vm_compute. repeat split; try reflexivity; lia. }
  split; [exact H|].
  exact (proj1 (gatherUserInput_accepts digitsToNumber w) H).
Defined.

(** ** app.ts on its own: projects are only added *)

Lemma filterProjects_all_active (objs : list Project) (items : list ref) :
  Forall (fun p => status p = Active) objs ->
  Forall (fun r => r < length objs) items ->
  filterProjects active objs items = items
  /\ filterProjects finished objs items = [].
Proof.
  intros Ha. induction 1 as [|r items Hr _ [IH1 IH2]]; [split; reflexivity|].
  destruct (lookup_lt_is_Some_2 objs r Hr) as [p Hp].
  assert (Hs : status p = Active).
  { rewrite Forall_forall in Ha. apply Ha. eapply list_elem_of_lookup_2, Hp. }
  unfold filterProjects in *. cbn [List.filter]. rewrite Hp.
  rewrite IH1, IH2. unfold relevant. rewrite Hs. split; reflexivity.
Qed.

Lemma renderProjects_seq (pre objs : list Project) :
  renderProjects (pre ++ objs) (seq (length pre) (length objs))
  = map title objs.
Proof.
  revert pre. induction objs as [|p objs IH]; intros pre; [reflexivity|].
  unfold renderProjects in *.
  change (seq (length pre) (length (p :: objs)))
    with (length pre :: seq (S (length pre)) (length objs)).
  change (omap ?f (?x :: ?l))
    with (match f x with Some y => y :: omap f l | None => omap f l end).
  cbv beta. rewrite list_lookup_middle by reflexivity.
  cbn [fmap option_fmap option_map]. simpl map. f_equal.
  specialize (IH (pre ++ [p])). rewrite <- app_assoc, length_app in IH.
  simpl in IH. rewrite Nat.add_1_r in IH. exact IH.
Qed.

(** While every project is active, the active list shows them all and the
    finished list is empty. *)
Lemma Inv_all_active (rand : nat -> jsstring) (w : World) :
  Inv rand w -> Forall (fun p => status p = Active) (objects w) ->
  lists w
  = [mkProjectList active (seq 0 (length (objects w)))
       (map title (objects w));
     mkProjectList finished [] []].
Proof.
  intros (_ & _ & Hrefs & _ & _ & _ & Hls) Ha.
  assert (Hv : Forall (fun r => r < length (objects w)) (storeRefs w)).
  { rewrite Hrefs. apply Forall_forall. intros r Hr.
    apply list_elem_of_In, in_seq in Hr. lia. }
  destruct (filterProjects_all_active _ _ Ha Hv) as [E1 E2].
  rewrite Hls. unfold column. rewrite E1, E2, Hrefs.
  pose proof (renderProjects_seq [] (objects w)) as E. simpl in E.
  now rewrite E.
Qed.

Lemma addProject_calls (rand : nat -> jsstring) (t d : jsstring) (n : number)
    (w : World) :
  Inv rand w -> length (calls (addProject t d n w)) = length (calls w) + 2.
Proof.
  intros (Hl & Hp & _). rewrite addProject_unfold.
  set (w1 := push _ _ _).
  assert (Hp1 : projects w1 < length (arrays w1)).
  { unfold w1. simpl. now rewrite length_alter. }
  destruct (notifyAll_notified (listeners w1) w1 Hp1) as (_ & C & _).
  fold (notify w1) in C. rewrite C, length_app.
  unfold notifications. rewrite length_imap.
  change (listeners w1) with (listeners w). now rewrite Hl.
Qed.

Lemma run_app (cs1 cs2 : list Call) (w : World) :
  run (cs1 ++ cs2) w = run cs2 (run cs1 w).
Proof. apply fold_left_app. Qed.

Lemma addAll_state (rand : nat -> jsstring)
    (ps : list (jsstring * jsstring * number)) :
  let w := run (addAll ps) (program rand) in
  Inv rand w
  /\ objects w
     = imap (fun i p => mkProject (rand i) (fst (fst p)) (snd (fst p))
                          (snd p) Active) ps
  /\ length (calls w) = 2 * length ps.
Proof.
  induction ps as [|[[t d] n] ps IH] using rev_ind.
  - split; [apply Inv_program|]. split; reflexivity.
  - destruct IH as (I & O & C). cbv zeta.
    unfold addAll in *. rewrite map_app, run_app. simpl map.
    set (w := run _ (program rand)) in *.
    change (run [AddProject t d n] w) with (addProject t d n w).
    split; [now apply Inv_addProject|]. split.
    + rewrite (Inv_addProject_objects rand) by exact I.
      rewrite imap_app, O. simpl. rewrite length_imap, Nat.add_0_r.
      reflexivity.
    + rewrite (addProject_calls rand) by exact I.
      rewrite C, length_app. simpl. lia.
Qed.

Lemma imap_all_active (rand : nat -> jsstring)
    (ps : list (jsstring * jsstring * number)) :
  Forall (fun p => status p = Active)
    (imap (fun i p => mkProject (rand i) (fst (fst p)) (snd (fst p))
                        (snd p) Active) ps).
Proof.
  apply Forall_forall. intros p Hp.
  apply list_elem_of_lookup in Hp as [i Hi].
  rewrite list_lookup_imap in Hi.
  destruct (ps !! i); [|discriminate]. simpl in Hi. now injection Hi as <-.
Qed.

Lemma map_title_imap (rand : nat -> jsstring)
    (ps : list (jsstring * jsstring * number)) :
  map title
    (imap (fun i p => mkProject (rand i) (fst (fst p)) (snd (fst p))
                        (snd p) Active) ps)
  = map (fun p => fst (fst p)) ps.
Proof.
  apply list_eq. intros i. change map with (@fmap list _).
  rewrite !list_lookup_fmap, list_lookup_imap.
  now destruct (ps !! i).
Qed.


(** From the form to the page: a submission that validates, made after the
    projects [ps] were added, puts the title as entered in a new last row
    of the active list, leaves the finished list empty and empties the
    three fields. *)
Theorem submit_shows_title (ToNumber : jsstring -> number)
    (rand : nat -> jsstring) (ps : list (jsstring * jsstring * number))
    (t d p : jsstring) :
  let w := withInputs t d p (run (addAll ps) (program rand)) in
  let w' := submitHandler ToNumber w in
  validate (validateTitle t) && validate (validateDescription d)
  && validate (validatePeople (ToNumber p)) = true ->
  lists w'
  = [mkProjectList active (seq 0 (S (length ps)))
       (map (fun p => fst (fst p)) ps ++ [t]);
     mkProjectList finished [] []]
  /\ titleInput w' = [] /\ descriptionInput w' = [] /\ peopleInput w' = [].
Proof.
  intros w w' H.
  destruct (addAll_state rand ps) as (I0 & O0 & _).
  assert (I : Inv rand w) by exact I0.
  assert (O : objects w = imap (fun i p => mkProject (rand i) (fst (fst p))
                                  (snd (fst p)) (snd p) Active) ps) by exact O0.
  unfold w'. rewrite submitHandler_valid by exact H.
  split; [|repeat split].
  change (lists (clearInputs ?x)) with (lists x).
  change (titleInput w) with t. change (descriptionInput w) with d.
  change (peopleInput w) with p.
  assert (O' : objects (addProject t d (ToNumber p) w)
               = objects w ++ [mkProject (rand (length (objects w))) t d
                                 (ToNumber p) Active])
    by now apply Inv_addProject_objects.
  rewrite (Inv_all_active rand (addProject t d (ToNumber p) w)).
  - rewrite O', length_app, map_app, O, length_imap, map_title_imap. simpl.
    now rewrite Nat.add_1_r.
  - now apply Inv_addProject.
  - rewrite O'. apply Forall_app. split; [rewrite O; apply imap_all_active|].
    now constructor.
Qed.

Lemma submit_shows_title_witness :
  let w := filled "Write docs" "Explain the API" "2"
             (run (addAll [(js "Build API", js "Design the REST API",
                            ofNat 3)]) (program oddDraws)) in
  validate (validateTitle (js "Write docs"))
  && validate (validateDescription (js "Explain the API"))
  && validate (validatePeople (digitsToNumber (js "2"))) = true
  /\ map rendered (lists (submitHandler digitsToNumber w))
     = [[js "Build API"; js "Write docs"]; []].
Proof.
  intros w.
  assert (H : validate (validateTitle (js "Write docs"))
              && validate (validateDescription (js "Explain the API"))
              && validate (validatePeople (digitsToNumber (js "2"))) = true)
    by reflexivity.
  split; [exact H|].
  pose proof (submit_shows_title digitsToNumber oddDraws
                [(js "Build API", js "Design the REST API", ofNat 3)]
                (js "Write docs") (js "Explain the API") (js "2") H)
    as [E _].
  fold w in E. cbv zeta in E. unfold filled in w. fold w in E.
  rewrite E. reflexivity.
Defined.

(** ** app.ts with any listeners *)

(** What [addProject] does whatever the listeners are. *)
Lemma addProject_notified (t d : jsstring) (n : number) (w : World) :
  projects w < length (arrays w) ->
  let w' := addProject t d n w in
  projects w' = projects w
  /\ listeners w' = listeners w
  /\ drawn w' = S (drawn w)
  /\ storeRefs w' = storeRefs w ++ [length (objects w)]
  /\ length (objects w') = S (length (objects w))
  /\ calls w'
     = calls w
       ++ notifications (listeners w) (length (arrays w))
            (storeRefs w ++ [length (objects w)])
  /\ length (arrays w') = length (arrays w) + length (listeners w)
  /\ length (lists w') = length (lists w).
Proof.
  intros Hp w'. unfold w'. rewrite addProject_unfold.
  set (w0 := withObjects _ _).
  set (w1 := push _ _ w0).
  assert (Hp0 : projects w0 < length (arrays w0)) by exact Hp.
  assert (R1 : storeRefs w1 = storeRefs w ++ [length (objects w)]).
  { unfold w1. change (projects w) with (projects w0).
    now rewrite storeRefs_push. }
  assert (A1 : length (arrays w1) = length (arrays w)).
  { unfold w1. simpl. apply length_alter. }
  assert (Hp1 : projects w1 < length (arrays w1)) by now rewrite A1.
  pose proof (notifyAll_notified (listeners w1) w1 Hp1) as N.
  pose proof (notified_storeRefs _ _ _ N Hp1) as R.
  destruct N as (F & C & A & _ & O & L). fold (notify w1) in F, C, A, O, L, R.
  rewrite (fixed_projects _ _ F), (fixed_listeners _ _ F).
  rewrite (proj2 (fixed_random _ _ F)), R, R1, O, C, A, L, R1, A1.
  repeat split. simpl. rewrite length_app. simpl. lia.
Qed.

(** The invariant of the store under the calls of app.ts. *)
Lemma store_invariant (rand : nat -> jsstring) (hist : list AppCall) :
  forall w,
    projects w < length (arrays w) ->
    storeRefs w = seq 0 (length (objects w)) ->
    let w' := run (map appCall hist) w in
    projects w' < length (arrays w')
    /\ storeRefs w' = seq 0 (length (objects w'))
    /\ length (objects w')
       = length (objects w) + length (List.filter isAppAdd hist).
Proof.
  induction hist as [|c hist IH]; intros w Hp Hr; simpl.
  - repeat split; [exact Hp | exact Hr | lia].
  - assert (S1 : projects (step w (appCall c)) < length (arrays (step w (appCall c)))
                 /\ storeRefs (step w (appCall c))
                    = seq 0 (length (objects (step w (appCall c))))
                 /\ length (objects (step w (appCall c)))
                    = length (objects w) + (if isAppAdd c then 1 else 0)).
    { destruct c as [t|body|t d n]; simpl.
      - repeat split; [exact Hp | exact Hr | lia].
      - repeat split; [exact Hp | exact Hr | lia].
      - destruct (addProject_notified t d n w Hp)
          as (P & _ & _ & R & O & _ & A & _).
        rewrite P, R, O, A, Hr, seq_S. repeat split; lia. }
    destruct S1 as (Hp1 & Hr1 & O1).
    destruct (IH _ Hp1 Hr1) as (Hp2 & Hr2 & O2).
    repeat split; [exact Hp2 | exact Hr2 |].
    rewrite O2, O1. destruct (isAppAdd c); simpl; lia.
Qed.

(** In app.ts, whatever listeners are registered and whatever they do with
    what they are handed, the store holds exactly the projects created, in
    the order of creation: none is dropped, doubled or moved, and there is
    one per [addProject] call. *)
Theorem store_keeps_creation_order (rand : nat -> jsstring)
    (hist : list AppCall) :
  let w := run (map appCall hist) (boot rand) in
  storeRefs w = seq 0 (length (objects w))
  /\ length (storeRefs w) = length (List.filter isAppAdd hist)
  /\ length (objects w) = length (List.filter isAppAdd hist).
Proof.
  intros w.
  destruct (store_invariant rand hist (boot rand)) as (_ & R & O);
    [simpl; lia | reflexivity |].
  fold w in R, O. simpl in O.
  split; [exact R|]. split; [|exact O]. now rewrite R, length_seq.
Qed.

Lemma snapshots_notifications (ls : list Listener) (first : ref)
    (refs : list ref) :
  map (fun c => snd (fst c)) (notifications ls first refs)
  = seq first (length ls)
  /\ Forall (fun c => snd c = refs) (notifications ls first refs).
Proof.
  revert first. induction ls as [|l ls IH]; intros first.
  - split; [reflexivity | constructor].
  - rewrite notifications_cons. destruct (IH (S first)) as [E F].
    split; [simpl; now rewrite E | now constructor].
Qed.

(** The arrays handed to listeners so far are distinct arrays that exist,
    none is the array of the store, and each held, when it was handed
    over, a beginning of what the store holds now. *)
Lemma snapshots_invariant (rand : nat -> jsstring) (hist : list AppCall) :
  forall w,
    projects w < length (arrays w) ->
    NoDup (snapshots w) ->
    Forall (fun s => s < length (arrays w) /\ s <> projects w) (snapshots w) ->
    Forall (fun c => snd c `prefix_of` storeRefs w) (calls w) ->
    let w' := run (map appCall hist) w in
    NoDup (snapshots w')
    /\ Forall (fun s => s < length (arrays w') /\ s <> projects w')
         (snapshots w')
    /\ Forall (fun c => snd c `prefix_of` storeRefs w') (calls w').
Proof.
  induction hist as [|c hist IH]; intros w Hp Hnd Hs Hc; simpl.
  - repeat split; assumption.
  - destruct c as [t|body|t d n]; simpl.
    + now apply IH.
    + now apply IH.
    + destruct (addProject_notified t d n w Hp)
        as (P & _ & _ & R & _ & C & A & _).
      destruct (snapshots_notifications (listeners w) (length (arrays w))
                  (storeRefs w ++ [length (objects w)])) as [E F].
      apply IH.
      * rewrite P, A. lia.
      * unfold snapshots. rewrite C, map_app, E. apply NoDup_app.
        split; [exact Hnd|]. split; [|apply NoDup_seq].
        intros s H1 H2. rewrite Forall_forall in Hs.
        apply Hs in H1 as [H1 _].
        apply list_elem_of_In, in_seq in H2. lia.
      * unfold snapshots. rewrite C, map_app, E, P, A. apply Forall_app.
        split.
        -- eapply Forall_impl; [exact Hs|]. simpl. intros s [H1 H2].
           split; [lia | exact H2].
        -- apply Forall_forall. intros s H.
           apply list_elem_of_In, in_seq in H. lia.
      * rewrite C, R. apply Forall_app. split.
        -- eapply Forall_impl; [exact Hc|]. simpl. intros x H.
           now apply prefix_app_r.
        -- eapply Forall_impl; [exact F|]. simpl. now intros x ->.
Qed.

(** In app.ts every listener call ever made got an array of its own: the
    arrays handed over are pairwise distinct, none of them is the array
    the store keeps, and what each held at the call is a beginning of the
    sequence the store holds now. *)
Theorem snapshots_are_fresh (rand : nat -> jsstring) (hist : list AppCall) :
  let w := run (map appCall hist) (boot rand) in
  NoDup (snapshots w)
  /\ (projects w ∉ snapshots w)
  /\ Forall (fun c => snd c `prefix_of` storeRefs w) (calls w).
Proof.
  intros w.
  destruct (snapshots_invariant rand hist (boot rand)) as (N & S & C);
    [simpl; lia | apply NoDup_nil_2 | apply Forall_nil_2 | apply Forall_nil_2 |].
  fold w in N, S, C. split; [exact N|]. split; [|exact C].
  intros H. rewrite Forall_forall in S. apply S in H as [_ H]. now apply H.
Qed.








(** [validate] read as a conjunction: the value passes exactly when every
    option that is set and applies to its type holds. [required] asks for
    a text that is not blank and is met by every number; the length
    bounds bind strings only and the numeric bounds numbers only; an
    option that is absent, or of the other type, asks nothing. *)
Theorem validate_spec (input : Validatable) :
  validate input = true
  <-> (required input = Some true ->
       forall s, value input = VString s -> blank s = false)
      /\ (forall s m, value input = VString s -> minLength input = Some m ->
            num_ge (ofNat (length s)) m = true)
      /\ (forall s m, value input = VString s -> maxLength input = Some m ->
            num_le (ofNat (length s)) m = true)
      /\ (forall n m, value input = VNumber n -> min input = Some m ->
            num_ge n m = true)
      /\ (forall n m, value input = VNumber n -> max input = Some m ->
            num_le n m = true).
Proof.
  destruct input as [v r a b c d]. unfold validate.
  cbn [value required minLength maxLength min max].
  assert (R : (if truthy r
               then true && negb (length (trim (toString v)) =? 0)
               else true) = true
              <-> (r = Some true -> forall s, v = VString s -> blank s = false)).
  { rewrite trim_length_0. destruct r as [[|]|]; simpl.
    - destruct v as [s|n]; simpl.
      + rewrite negb_true_iff. split; [intros H _ s' E; congruence|].
        intros H. now apply H.
      + rewrite Number_toString_not_blank. split; [discriminate|reflexivity].
    - split; [discriminate|reflexivity].
    - split; [discriminate|reflexivity]. }
  destruct (if truthy r then _ else _) eqn:E0.
  - destruct v as [s|n], a as [a|], b as [b|], c as [c|], d as [d|];
      rewrite ?andb_true_l, ?andb_true_iff;
      (split;
       [ intros H; repeat split; try (intros; congruence);
         try (apply R; reflexivity);
         intros ? ? E1 E2; injection E1 as <-; injection E2 as <-; tauto
       | intros (_ & H1 & H2 & H3 & H4);
         repeat split; try reflexivity; eauto ]).
  - split.
    + destruct v as [s|n], a as [a|], b as [b|], c as [c|], d as [d|];
        rewrite ?andb_false_l; discriminate.
    + intros (H & _). apply R in H. discriminate H.
Qed.
